(** * Resume analyzer: extraction and scoring pipeline

    A shallow embedding of the Python sources
    [app/services/extractor.py], [app/services/skill_matcher.py],
    [app/utils/scoring.py], [app/utils/text_cleaner.py], of the
    hyperlink merge of [app/routes/upload.py], of
    [extract_urls_from_text] of [app/services/resume_parser.py] and of the
    reply parsers of [app/services/groq_analyzer.py], followed by the
    properties established about them.

    Conventions of the embedding.
    - A Python [str] is a list of Unicode code points ([list N]).
    - Character tables ([isalpha], [isspace], [lower], ...) follow the
      Unicode character database on U+0000..U+00FF; higher code points
      are treated as caseless symbols.
    - A Python [set] of strings is a [gset]; a [dict] with string keys is
      a [gmap]; [sorted] is a merge sort for the code point order.
    - A function that can raise returns a [result]. *)

From Stdlib Require Import NArith ZArith QArith Qround Qabs Lia Lqa.
From Stdlib Require Import Strings.String Strings.Ascii.
From stdpp Require Import gmap sorting list pretty.

Local Open Scope N_scope.

(** ** Python strings as lists of code points *)

Abbreviation char := N (only parsing).
Abbreviation str := (list N) (only parsing).

(** [u "abc"] is the Python literal ["abc"]. *)
Definition u (s : string) : str :=
  List.map N_of_ascii (list_ascii_of_string s).
Arguments u s%_string.

Definition NL : char := 10.

(** The literal written U+00E2 U+20AC U+00A2 in the sources. *)
Definition BULLET : str := [226; 8364; 162].

Module PyStr.

Definition in_range (lo hi c : char) : bool := (lo <=? c) && (c <=? hi).

Definition isupper_c (c : char) : bool :=
  in_range 65 90 c || (in_range 192 222 c && negb (c =? 215)).

Definition islower_c (c : char) : bool :=
  in_range 97 122 c || (in_range 223 255 c && negb (c =? 247))
  || (c =? 170) || (c =? 181) || (c =? 186).

Definition iscased (c : char) : bool := isupper_c c || islower_c c.

(** On U+0000..U+00FF every letter is cased. *)
Definition isalpha (c : char) : bool := iscased c.

(** [\d] of [re] and [str.isdecimal]. *)
Definition isdecimal (c : char) : bool := in_range 48 57 c.

(** [str.isdigit]: decimal digits and the superscripts 1, 2, 3. *)
Definition isdigit (c : char) : bool :=
  isdecimal c || (c =? 178) || (c =? 179) || (c =? 185).

Definition isnumeric (c : char) : bool := isdigit c || in_range 188 190 c.

(** [str.isspace] and [\s] of [re]. *)
Definition isspace (c : char) : bool :=
  in_range 9 13 c || in_range 28 32 c || (c =? 133) || (c =? 160).

(** [\w] of [re]: alphanumeric or underscore. *)
Definition is_word (c : char) : bool :=
  isalpha c || isnumeric c || (c =? 95).

Definition lower_c (c : char) : char := if isupper_c c then c + 32 else c.

(** Title-case mapping of one character; it may produce two characters. *)
Definition totitle (c : char) : str :=
  if c =? 223 then [83; 115]
  else if c =? 181 then [924]
  else if c =? 255 then [376]
  else if in_range 97 122 c || (in_range 224 254 c && negb (c =? 247))
       then [c - 32]
  else [c].

Definition lower (s : str) : str := List.map lower_c s.

(** [s.title()]. *)
Fixpoint title_from (prev_cased : bool) (s : str) : str :=
  match s with
  | [] => []
  | c :: t =>
      (if prev_cased then [lower_c c] else totitle c)
        ++ title_from (iscased c) t
  end.
Definition to_title (s : str) : str := title_from false s.

(** [s.isupper()]. *)
Definition isupper (s : str) : bool :=
  forallb (fun c => negb (islower_c c)) s && existsb isupper_c s.

Definition eqb (a b : str) : bool := bool_decide (a = b).

(** [s.startswith(p)]. *)
Fixpoint startswith (p s : str) : bool :=
  match p, s with
  | [], _ => true
  | _ :: _, [] => false
  | a :: p', b :: s' => (a =? b) && startswith p' s'
  end.

Definition endswith (p s : str) : bool := startswith (rev p) (rev s).

(** [sub in s]. *)
Fixpoint isin (sub s : str) : bool :=
  startswith sub s ||
  match s with
  | [] => false
  | _ :: s' => isin sub s'
  end.

Definition char_in (c : char) (s : str) : bool := existsb (N.eqb c) s.

Fixpoint lstrip_by (p : char -> bool) (s : str) : str :=
  match s with
  | [] => []
  | c :: s' => if p c then lstrip_by p s' else s
  end.
Definition rstrip_by (p : char -> bool) (s : str) : str :=
  rev (lstrip_by p (rev s)).

(** [s.strip()]. *)
Definition strip (s : str) : str := rstrip_by isspace (lstrip_by isspace s).

(** [s.lstrip(chars)]. *)
Definition lstrip (chars s : str) : str :=
  lstrip_by (fun c => char_in c chars) s.

(** [s.split(sep)] for a one-character separator: never empty. *)
Fixpoint split_on (sep : char) (s : str) : list str :=
  match s with
  | [] => [[]]
  | c :: s' =>
      if c =? sep then [] :: split_on sep s'
      else match split_on sep s' with
           | [] => [[c]]
           | w :: ws => (c :: w) :: ws
           end
  end.

(** [sep.join(parts)]. *)
Fixpoint join (sep : str) (parts : list str) : str :=
  match parts with
  | [] => []
  | [p] => p
  | p :: ps => p ++ sep ++ join sep ps
  end.

(** Line boundaries of [str.splitlines]. *)
Definition is_linebreak (c : char) : bool :=
  in_range 10 13 c || in_range 28 30 c || (c =? 133)
  || (c =? 8232) || (c =? 8233).

(** [s.splitlines()]: [cur] is the line being read, reversed. *)
Fixpoint splitlines_from (cur : str) (s : str) : list str :=
  match s with
  | [] => match cur with [] => [] | _ => [rev cur] end
  | c :: s' =>
      if is_linebreak c then
        match c, s' with
        | 13, 10 :: s'' => rev cur :: splitlines_from [] s''
        | _, _ => rev cur :: splitlines_from [] s'
        end
      else splitlines_from (c :: cur) s'
  end.
Definition splitlines (s : str) : list str := splitlines_from [] s.

(** [s.split()]: the maximal runs of non-whitespace characters. *)
Fixpoint words_from (cur : str) (s : str) : list str :=
  match s with
  | [] => match cur with [] => [] | _ => [rev cur] end
  | c :: s' =>
      if isspace c then
        match cur with
        | [] => words_from [] s'
        | _ => rev cur :: words_from [] s'
        end
      else words_from (c :: cur) s'
  end.
Definition split (s : str) : list str := words_from [] s.

(** [s.replace(old, new)]; the sources only pass a non-empty [old].
    [fuel] bounds the scan and [length s] always suffices. *)
Fixpoint replace_from (fuel : nat) (old new s : str) : str :=
  match fuel with
  | O => s
  | S fuel' =>
      match s with
      | [] => []
      | c :: s' =>
          if startswith old s
          then new ++ replace_from fuel' old new (drop (length old) s)
          else c :: replace_from fuel' old new s'
      end
  end.
Definition replace (old new s : str) : str :=
  match old with
  | [] => s
  | _ => replace_from (length s) old new s
  end.

End PyStr.

(** ** Regular expressions of the [re] module

    A backtracking matcher with the priorities of [re]: alternatives left
    to right, greedy repetition.  The continuation receives the character
    before the current position (for [\b]) and the remaining input. *)

Module Re.
Import PyStr.

Inductive re :=
| Eps
| Cls (p : char -> bool)
| Cat (r1 r2 : re)
| Alt (r1 r2 : re)
| Star (r : re)
| Bnd.

Declare Scope re_scope.
Delimit Scope re_scope with re.
Bind Scope re_scope with re.
Infix "·" := Cat (at level 40, left associativity) : re_scope.
Infix "|||" := Alt (at level 50, left associativity) : re_scope.

Definition Lit (c : char) : re := Cls (N.eqb c).
Definition Opt (r : re) : re := Alt r Eps.
Definition Plus (r : re) : re := Cat r (Star r).

(** [re.escape(s)]: the characters of [s], literally. *)
Fixpoint Str (s : str) : re :=
  match s with
  | [] => Eps
  | c :: t => Cat (Lit c) (Str t)
  end.

Fixpoint Times (n : nat) (r : re) : re :=
  match n with
  | O => Eps
  | S n' => Cat r (Times n' r)
  end.
Fixpoint UpTo (n : nat) (r : re) : re :=
  match n with
  | O => Eps
  | S n' => Opt (Cat r (UpTo n' r))
  end.
(** [r{m,n}], greedy. *)
Definition Rep (m n : nat) (r : re) : re :=
  Cat (Times m r) (UpTo (n - m) r).

Definition word_before (prev : option char) : bool :=
  match prev with
  | Some c => is_word c
  | None => false
  end.
Definition word_at (s : str) : bool :=
  match s with
  | c :: _ => is_word c
  | [] => false
  end.
(** [\b] holds between a word character and a non-word character or
    an end of the text. *)
Definition at_boundary (prev : option char) (s : str) : bool :=
  xorb (word_before prev) (word_at s).

Fixpoint matchk {A} (r : re) (prev : option char) (s : str)
    (k : option char -> str -> option A) {struct r} : option A :=
  match r with
  | Eps => k prev s
  | Cls p =>
      match s with
      | c :: s' => if p c then k (Some c) s' else None
      | [] => None
      end
  | Cat r1 r2 => matchk r1 prev s (fun prev' s' => matchk r2 prev' s' k)
  | Alt r1 r2 =>
      match matchk r1 prev s k with
      | Some x => Some x
      | None => matchk r2 prev s k
      end
  | Star r1 =>
      (fix loop (n : nat) (prev : option char) (s : str) : option A :=
         match n with
         | O => k prev s
         | S n' =>
             match matchk r1 prev s
                     (fun prev' s' =>
                        if (length s' <? length s)%nat
                        then loop n' prev' s' else None) with
             | Some x => Some x
             | None => k prev s
             end
         end) (length s) prev s
  | Bnd => if at_boundary prev s then k prev s else None
  end.

(** A match starting at the current position: what follows it. *)
Definition match_here (r : re) (prev : option char) (s : str) : option str :=
  matchk r prev s (fun _ rest => Some rest).

(** [re.search]: the leftmost match, as (matched text, rest). *)
Fixpoint search_from (r : re) (prev : option char) (s : str)
    : option (str * str) :=
  match match_here r prev s with
  | Some rest => Some (take (length s - length rest) s, rest)
  | None =>
      match s with
      | [] => None
      | c :: s' => search_from r (Some c) s'
      end
  end.
Definition search (r : re) (s : str) : option (str * str) :=
  search_from r None s.

(** [m.group(0) if m else ""]. *)
Definition group0_or_empty (m : option (str * str)) : str :=
  match m with
  | Some (g, _) => g
  | None => []
  end.

(** [re.findall] for a pattern that matches no empty string. *)
Fixpoint findall_from (fuel : nat) (r : re) (prev : option char) (s : str)
    : list str :=
  match fuel with
  | O => []
  | S fuel' =>
      match search_from r prev s with
      | None => []
      | Some (g, rest) =>
          g :: findall_from fuel' r (List.last (prev :: List.map Some g) None)
                 rest
      end
  end.
Definition findall (r : re) (s : str) : list str :=
  findall_from (length s) r None s.

End Re.

(** ** Exceptions and results *)

Inductive exn := IndexError | OSError.

Inductive result (A : Type) :=
| Ok (a : A)
| Raise (e : exn).
Arguments Ok {A} a.
Arguments Raise {A} e.

#[global] Instance result_ret : MRet result := fun A a => Ok a.

#[global] Instance result_bind : MBind result := fun A B f m =>
  match m with
  | Ok a => f a
  | Raise e => Raise e
  end.

(** ** [sorted] on strings: the code point order *)

Module StrOrder.

Fixpoint ltb (a b : str) : bool :=
  match a, b with
  | _, [] => false
  | [], _ :: _ => true
  | x :: a', y :: b' => (x <? y) || ((x =? y) && ltb a' b')
  end.

Definition le (a b : str) : Prop := ltb b a = false.
Definition lt (a b : str) : Prop := ltb a b = true.

#[global] Instance le_dec : RelDecision le :=
  fun a b => decide (ltb b a = false).

(** [sorted(xs)]. *)
Definition sorted (xs : list str) : list str := merge_sort le xs.

(** [sorted(s)] for a set [s]. *)
Definition sorted_set (s : gset str) : list str := sorted (elements s).

End StrOrder.

(** ** [app/utils/text_cleaner.py] *)

Module TextCleaner.
Import PyStr.

(** The characters kept by [[^a-z0-9+#.\s]]. *)
Definition kept (c : char) : bool :=
  in_range 97 122 c || in_range 48 57 c
  || (c =? 43) || (c =? 35) || (c =? 46) || isspace c.

(** [re.sub(r"\s+", " ", t)]. *)
Fixpoint collapse_spaces (in_run : bool) (t : str) : str :=
  match t with
  | [] => []
  | c :: t' =>
      if isspace c
      then (if in_run then [] else [32]) ++ collapse_spaces true t'
      else c :: collapse_spaces false t'
  end.

Definition normalize_text (text : str) : str :=
  let t := lower text in
  let t := List.map (fun c => if kept c then c else 32) t in
  strip (collapse_spaces false t).

End TextCleaner.

(** ** [app/models/resume_schema.py] *)

Record OnlineProfile := { label : str; url : str }.

Record Project := { proj_name : str; technologies : list str }.

Record Resume := {
  name : str;
  email : str;
  phone : str;
  online_profiles : list OnlineProfile;
  experience_summary : option str;
  projects : list Project;
  skills : list str;
  achievements : option (list str)
}.

Record JobDescription := { title : str; description : str }.

Record AnalysisResult := {
  compatibility_score : Q;
  matched_skills : list str;
  missing_skills : list str;
  irrelevant_content : list str;
  suggestions : list (str * list str)
}.

#[global] Instance OnlineProfile_eq_dec : EqDecision OnlineProfile.
Proof. solve_decision. Defined.

(** ** [app/services/extractor.py] *)

Module Extractor.
Import PyStr Re.

(** [[a-zA-Z0-9]], on ASCII only as the pattern spells the ranges. *)
Definition ascii_alnum (c : char) : bool :=
  in_range 97 122 c || in_range 65 90 c || in_range 48 57 c.

(** [[a-zA-Z0-9_.+-]+@[a-zA-Z0-9-]+\.[a-zA-Z0-9-.]+] *)
Definition EMAIL_RE : re :=
  (Plus (Cls (fun c => ascii_alnum c || char_in c (u "_.+-")))
   · Lit 64
   · Plus (Cls (fun c => ascii_alnum c || (c =? 45)%N))
   · Lit 46
   · Plus (Cls (fun c => ascii_alnum c || char_in c (u "-."))))%re.

(** [[\s.-]] *)
Definition phone_sep : re :=
  Cls (fun c => isspace c || (c =? 46)%N || (c =? 45)%N).
Definition digit : re := Cls isdecimal.

(** [(?:\+\d{1,3}[\s.-]?)?(?:\d{2,4}[\s.-]?)?\d{3}[\s.-]?\d{3,4}[\s.-]?\d{3,4}|\+\d{1,3}\s?\d{6,14}] *)
Definition PHONE_RE : re :=
  (Opt (Lit 43 · Rep 1 3 digit · Opt phone_sep)
   · Opt (Rep 2 4 digit · Opt phone_sep)
   · Rep 3 3 digit · Opt phone_sep
   · Rep 3 4 digit · Opt phone_sep
   · Rep 3 4 digit
   ||| Lit 43 · Rep 1 3 digit · Opt (Cls isspace) · Rep 6 14 digit)%re.

(** [https?://[^\s]+] *)
Definition URL_RE : re :=
  (Str (u "http") · Opt (Lit 115) · Str (u "://")
   · Plus (Cls (fun c => negb (isspace c))))%re.

Local Open Scope string_scope.

(** A [dict] literal keeps its insertion order when iterated. *)
Definition PROFILE_LABELS : list (str * str) :=
  [ (u "linkedin", u "LinkedIn");
    (u "github", u "GitHub");
    (u "portfolio", u "Portfolio");
    (u "medium", u "Medium");
    (u "kaggle", u "Kaggle");
    (u "leetcode", u "LeetCode");
    (u "codeforces", u "Codeforces");
    (u "gitlab", u "GitLab");
    (u "bitbucket", u "Bitbucket") ].

Definition TECH_WORDS : list str := List.map u
  [ "python"; "java"; "c++"; "c#"; "javascript"; "typescript"; "go"; "rust";
    "r"; "scala"; "kotlin";
    "fastapi"; "flask"; "django"; "spring"; "nodejs"; "express"; "next.js";
    "nextjs"; "vue.js"; "nuxt";
    "pandas"; "numpy"; "scipy"; "scikit-learn"; "sklearn"; "matplotlib";
    "seaborn"; "plotly";
    "statsmodels"; "xgboost"; "lightgbm"; "catboost"; "eda";
    "statistical analysis";
    "sql"; "mysql"; "postgres"; "postgresql"; "mongodb"; "redis";
    "cassandra"; "dynamodb"; "elasticsearch";
    "aws"; "azure"; "gcp"; "docker"; "kubernetes"; "jenkins"; "gitlab";
    "github"; "circleci";
    "spark"; "hadoop"; "kafka"; "airflow"; "dbt"; "hive"; "presto";
    "pytorch"; "tensorflow"; "keras"; "torch"; "onnx"; "transformers";
    "hugging face";
    "bert"; "gpt"; "llm"; "langchain"; "faiss"; "rag"; "llama"; "openai";
    "spacy"; "nltk"; "gensim"; "textblob"; "tokenization"; "nlp"; "ner";
    "sentiment";
    "opencv"; "opencv-python"; "yolo"; "yolov8"; "yolov5"; "yolov3"; "cnn";
    "deepsort";
    "react"; "vue"; "angular"; "svelte"; "html"; "css"; "sass"; "bootstrap";
    "tailwind"; "d3.js";
    "git"; "jupyter"; "notebook"; "jupyter notebook"; "jira"; "confluence";
    "notion";
    "linux"; "bash"; "shell"; "powershell"; "windows"; "mac"; "macos";
    "power bi"; "powerbi"; "tableau"; "looker"; "qlik"; "excel"; "vba";
    "regression"; "classification"; "random forest"; "lstm"; "rnn"; "cnn";
    "gan"; "mlops";
    "time series"; "forecasting"; "clustering"; "pca"; "kmeans"; "ensemble";
    "cross validation";
    "fine-tuning"; "prompt engineering"; "vector databases"; "embeddings";
    "retrieval augmented" ].

Definition SECTION_KEYWORDS : list (str * list str) :=
  [ (u "contact", List.map u
       ["contact"; "phone"; "email"; "linkedin"; "github"; "address";
        "location"]);
    (u "summary", List.map u
       ["summary"; "objective"; "profile"; "about"; "professional summary";
        "executive summary"]);
    (u "education", List.map u
       ["education"; "degree"; "university"; "college"; "b.tech"; "btech";
        "bachelor"; "master"; "m.tech"; "mtech"; "certification"; "course";
        "gpa"; "cgpa"]);
    (u "experience", List.map u
       ["experience"; "work"; "employment"; "professional"; "job";
        "position"; "worked as"; "worked on"]);
    (u "projects", List.map u
       ["projects"; "project"; "portfolio"; "capstone"; "case study";
        "assignment"]);
    (u "skills", List.map u
       ["skills"; "technical"; "technologies"; "competencies"; "expertise";
        "proficient"; "programming"; "tools"]);
    (u "achievements", List.map u
       ["achievements"; "awards"; "recognitions"; "publications";
        "certifications"; "honors"; "accomplishments"]) ].

(** [d.keys()] and [d.get(k, default)] of a dict literal. *)
Definition keys {V} (d : list (str * V)) : list str := List.map fst d.
Definition get {V} (d : list (str * V)) (k : str) (default : V) : V :=
  match List.find (fun kv => PyStr.eqb (fst kv) k) d with
  | Some kv => snd kv
  | None => default
  end.

Definition label_url (url : str) : str :=
  let u' := lower url in
  match List.find (fun kl => isin (fst kl) u') PROFILE_LABELS with
  | Some kl => snd kl
  | None => u "Website"
  end.

Definition SKIP_WORDS : list str := List.map u
  ["summary"; "objective"; "about"; "phone"; "email"; "linkedin"; "github"].

Local Close Scope string_scope.

(** The body of the loop of [extract_name_robust]: whether [line] is
    appended to [name_candidates].  The test
    [alpha_count / len(line) > 0.7] is reached with
    [1 <= len(line) <= 100] only, where the float comparison agrees with
    [10 * alpha_count > 7 * len(line)]. *)
Definition name_candidate (line : str) : bool :=
  if isin (u "@") line || isin (u "http") line
     || (isin (u "+") line && (length line <? 5)%nat) then false
  else if (100 <? length line)%nat then false
  else if isupper line && existsb isdigit line then false
  else if existsb (fun skip => isin skip (lower line)) SKIP_WORDS then false
  else
    let words := split line in
    if (1 <=? length words)%nat && (length words <=? 5)%nat then
      let alpha_count :=
        length (List.filter
                  (fun c => isalpha c || isspace c || char_in c (u "-'"))
                  line) in
      (7 * length line <? 10 * alpha_count)%nat
    else false.

Definition nonempty (s : str) : bool :=
  match s with [] => false | _ => true end.

Definition extract_name_robust (text : str) : str :=
  let lines := List.filter nonempty (List.map strip (splitlines text)) in
  match lines with
  | [] => []
  | _ =>
      let name_candidates := List.filter name_candidate (take 15 lines) in
      match name_candidates with
      | [] => []
      | first_candidate :: rest =>
          match rest with
          | second_candidate :: _ =>
              if (length (split first_candidate) <=? 3)%nat
                 && (length (split second_candidate) <=? 3)%nat then
                let combined :=
                  strip (first_candidate ++ u " " ++ second_candidate) in
                if (length (split combined) <=? 5)%nat
                then to_title combined
                else to_title first_candidate
              else to_title first_candidate
          | [] => to_title first_candidate
          end
      end
  end.

Definition extract_email (text : str) : str :=
  group0_or_empty (search EMAIL_RE text).

Definition extract_phone (text : str) : str :=
  group0_or_empty (search PHONE_RE text).

Definition detect_section_start (line section : str) : bool :=
  let line_lower := strip (lower line) in
  if negb (isin (u ":") line) && negb (endswith (u "s") line_lower)
  then false
  else
    let keywords := get SECTION_KEYWORDS section [] in
    existsb (fun kw => isin kw line_lower) keywords.


(** *** Section segmentation *)

(** [{k: "" for k in SECTION_KEYWORDS.keys()}], then
    [sections["other"] = ""]. *)
Definition empty_sections : gmap str str :=
  <[u "other" := []]>
    (list_to_map (List.map (fun k => (k, [])) (keys SECTION_KEYWORDS))).

Record seg_state := {
  sections : gmap str str;
  current_section : str;
  current_content : list str
}.

(** The first section name, in the order of the table, of which [line]
    is a header. *)
Definition detected_section (line : str) : option str :=
  List.find (detect_section_start line) (keys SECTION_KEYWORDS).

(** ['\n'.join(current_content).strip()] stored under [current_section]. *)
Definition flush (st : seg_state) : gmap str str :=
  <[current_section st := strip (join [NL] (current_content st))]>
    (sections st).

Definition seg_step (st : seg_state) (line : str) : seg_state :=
  match detected_section line with
  | Some section_name =>
      {| sections := flush st;
         current_section := section_name;
         current_content := [line] |}
  | None =>
      {| sections := sections st;
         current_section := current_section st;
         current_content := current_content st ++ [line] |}
  end.

Definition seg_init : seg_state :=
  {| sections := empty_sections;
     current_section := u "contact";
     current_content := [] |}.

Definition split_resume_by_sections (text : str) : gmap str str :=
  flush (fold_left seg_step (split_on NL text) seg_init).

(** [d.get(k, dflt)] on the returned dict. *)
Definition dict_get (d : gmap str str) (k dflt : str) : str :=
  default dflt (d !! k).

(** *** Projects *)

Definition PROJECT_MARKERS : list str := [u "project:"; BULLET ++ u " "].

Definition is_project_start (line : str) : bool :=
  existsb (fun hint => isin hint (lower line)) PROJECT_MARKERS
  || match line with
     | [] => false
     | c :: _ =>
         negb (isdigit c) && (5 <? length line)%nat
         && existsb (fun tech => isin (lower tech) (lower line))
              (take 10 TECH_WORDS)
     end.

Definition project_of_line (line : str) : option Project :=
  let techs := List.filter (fun t => isin (lower t) (lower line)) TECH_WORDS in
  let project_name :=
    fold_left (fun pn tech => strip (replace (lower tech) [] (lower pn)))
      techs line in
  let project_name :=
    strip (replace (u "project:") [] (replace BULLET [] project_name)) in
  let project_name := strip (hd [] (split_on 40 project_name)) in
  if nonempty project_name && (3 <? length project_name)%nat
  then Some {| proj_name := take 150 project_name;
               technologies :=
                 take 10 (StrOrder.sorted_set (list_to_set techs)) |}
  else None.

Definition extract_projects_from_text (text : str) : list Project :=
  take 10
    (omap (fun raw =>
             let line := strip raw in
             if is_project_start line then project_of_line line else None)
       (split_on NL text)).

(** *** Skills *)

(** [r'\b' + re.escape(tech) + r'\b'] *)
Definition skill_pattern (tech : str) : re := (Bnd · Str tech · Bnd)%re.

Definition detects (text_lower tech : str) : bool :=
  match search (skill_pattern tech) text_lower with
  | Some _ => true
  | None => false
  end.

Definition extract_skills_from_text (text : str) : list str :=
  let text_lower := lower text in
  let detected_skills : gset str :=
    list_to_set (List.filter (detects text_lower) TECH_WORDS) in
  StrOrder.sorted_set detected_skills.

(** *** Achievements *)

(** [s[0]] *)
Definition getitem0 (s : str) : result char :=
  match s with
  | c :: _ => Ok c
  | [] => Raise IndexError
  end.

(** [line.startswith(BULLET) or line.startswith('-') or
     line[0].isdigit() and '.' in line[:3]] *)
Definition is_achievement_line (line : str) : result bool :=
  if startswith BULLET line || startswith (u "-") line then Ok true
  else c ← getitem0 line; Ok (isdigit c && isin (u ".") (take 3 line)).

Definition achievement_of (line : str) : option str :=
  let achievement := strip (lstrip (BULLET ++ u "-0123456789. ") line) in
  if nonempty achievement && (10 <? length achievement)%nat
  then Some (take 200 achievement)
  else None.

Fixpoint collect_achievements (lines : list str) (achievements : list str)
    : result (list str) :=
  match lines with
  | [] => Ok achievements
  | raw :: rest =>
      let line := strip raw in
      is_achievement_line line ≫= fun b : bool =>
      collect_achievements rest
        (if b then achievements ++ option_list (achievement_of line)
         else achievements)
  end.

Definition extract_achievements_from_text (text : str) : result (list str) :=
  achievements ← collect_achievements (split_on NL text) [];
  Ok (take 10 achievements).

(** *** Profiles *)

(** The [profile_mentions] computed by the source is not used. *)
Definition extract_profiles_from_text (text : str) : list OnlineProfile :=
  List.map (fun url => {| label := label_url url; url := url |})
    (findall URL_RE text).

End Extractor.

(** *** Diagnostic report and assembly

    The file system is the part of the world [save_extracted_data] acts
    on: whether the [results] directory and the report file can be
    created, the two readings of the clock, and the files written. *)

Record FileSystem := {
  writable : bool;
  now_stamp : str;
  now_iso : str;
  files : gmap str str
}.

Module Diagnostics.
Import PyStr Extractor.

(** [os.makedirs(path, exist_ok=True)] *)
Definition makedirs (path : str) (fs : FileSystem) : result FileSystem :=
  if writable fs then Ok fs else Raise OSError.

(** [with open(filename, 'w') as f: f.write(...)], all chunks at once. *)
Definition write_file (filename : str) (chunks : list str) (fs : FileSystem)
    : result FileSystem :=
  if writable fs
  then Ok {| writable := writable fs;
             now_stamp := now_stamp fs;
             now_iso := now_iso fs;
             files := <[filename := concat chunks]> (files fs) |}
  else Raise OSError.

Definition str_of_nat (n : nat) : str := u (pretty (N.of_nat n)).

(** ["=" * 100 + "\n"] and ["-" * 100 + "\n"] *)
Definition rule (c : char) : str := repeat c 100 ++ [NL].

(** [x or 'NOT EXTRACTED'] *)
Definition or_not_extracted (s : str) : str :=
  if nonempty s then s else u "NOT EXTRACTED".

Definition classify_resume_sections (text : str) : gmap str str :=
  let sections := split_resume_by_sections text in
  <[u "full_text" := text]>
    (list_to_map
       (List.map (fun k => (k, strip (dict_get sections k [])))
          (keys SECTION_KEYWORDS))).

(** One [if sections[k].strip(): ...] block of the report. *)
Definition section_block (sections : gmap str str) (k heading : str)
    : list str :=
  let content := strip (dict_get sections k []) in
  if nonempty content
  then [heading ++ [NL]; rule 45; content ++ [NL; NL]]
  else [].

(** The glyphs that open the headings and the items of the report, as
    the code points that stand in the source. *)
Definition G_RAW : str := [240; 376; 8220; 8222].
Definition G_CLASSIFIED : str := [240; 376; 8221].
Definition G_CONTACT : str := [240; 376; 8220; 382].
Definition G_SUMMARY : str := [240; 376; 8220; 8249].
Definition G_EDUCATION : str := [240; 376; 381; 8220].
Definition G_EXPERIENCE : str := [240; 376; 8217; 188].
Definition G_PROJECTS : str := [240; 376; 353; 8364].
Definition G_SKILLS : str := [240; 376; 8250; 160; 239; 184].
Definition G_ACHIEVEMENTS : str := [240; 376; 8224].
Definition G_STRUCTURED : str := [226; 339; 8230].
Definition G_NAME : str := [240; 376; 8216; 164].
Definition G_EMAIL : str := [240; 376; 8220; 167].
Definition G_PHONE : str := [240; 376; 8220; 177].
Definition G_EXPSUMMARY : str := [240; 376; 8220].
Definition G_PROFILES : str := [240; 376; 338].
Definition G_CHECK : str := [226; 339; 8220].

(** The chunks written to the report, in order. *)
Definition report (fs : FileSystem) (text : str) (extracted : Resume)
    : list str :=
  let sections := classify_resume_sections text in
  [ rule 61;
    u "RESUME EXTRACTION & CLASSIFICATION REPORT - " ++ now_iso fs ++ [NL];
    rule 61 ++ [NL];
    G_RAW ++ u " FULL RAW TEXT (Complete Extracted Content):" ++ [NL];
    rule 45; text; [NL; NL];
    rule 61;
    G_CLASSIFIED ++ u " CLASSIFIED SECTIONS (Raw Section Content):" ++ [NL];
    rule 61 ++ [NL] ]
  ++ section_block sections (u "contact")
       (G_CONTACT ++ u " CONTACT INFORMATION:")
  ++ section_block sections (u "summary")
       (G_SUMMARY ++ u " SUMMARY / OBJECTIVE:")
  ++ section_block sections (u "education")
       (G_EDUCATION ++ u " EDUCATION:")
  ++ section_block sections (u "experience")
       (G_EXPERIENCE ++ u " EXPERIENCE / WORK:")
  ++ section_block sections (u "projects")
       (G_PROJECTS ++ u " PROJECTS / PORTFOLIO:")
  ++ section_block sections (u "skills")
       (G_SKILLS ++ u " SKILLS / TECHNOLOGIES:")
  ++ section_block sections (u "achievements")
       (G_ACHIEVEMENTS ++ u " ACHIEVEMENTS / CERTIFICATIONS:")
  ++ [ rule 61;
       G_STRUCTURED ++ u " STRUCTURED EXTRACTION (Parsed Model Output):"
         ++ [NL];
       rule 61 ++ [NL];
       G_NAME ++ u " NAME: " ++ or_not_extracted (name extracted) ++ [NL];
       G_EMAIL ++ u " EMAIL: " ++ or_not_extracted (email extracted) ++ [NL];
       G_PHONE ++ u " PHONE: " ++ or_not_extracted (phone extracted)
         ++ [NL; NL];
       G_EXPSUMMARY ++ u " EXPERIENCE SUMMARY:" ++ [NL]
         ++ or_not_extracted (default [] (experience_summary extracted))
         ++ [NL; NL];
       G_SKILLS ++ u " SKILLS (" ++ str_of_nat (length (skills extracted))
         ++ u " detected):" ++ [NL] ]
  ++ (match skills extracted with
      | [] => [u "  (No skills extracted)" ++ [NL]]
      | l => List.map (fun skill => u "  " ++ G_CHECK ++ u " " ++ skill ++ [NL])
               (StrOrder.sorted l)
      end)
  ++ [ [NL];
       G_PROFILES ++ u " ONLINE PROFILES ("
         ++ str_of_nat (length (online_profiles extracted))
         ++ u " found):" ++ [NL] ]
  ++ (match online_profiles extracted with
      | [] => [u "  (No profiles found)" ++ [NL]]
      | l => List.map (fun p => u "  " ++ BULLET ++ u " " ++ label p ++ u ": "
                                  ++ url p ++ [NL]) l
      end)
  ++ [ [NL];
       G_PROJECTS ++ u " PROJECTS ("
         ++ str_of_nat (length (projects extracted))
         ++ u " detected):" ++ [NL] ]
  ++ (match projects extracted with
      | [] => [u "  (No projects extracted)" ++ [NL]]
      | l =>
          concat
            (imap (fun i proj =>
                     (u "  " ++ str_of_nat (S i) ++ u ". " ++ proj_name proj
                        ++ [NL])
                     :: match technologies proj with
                        | [] => []
                        | ts => [u "     Technologies: "
                                   ++ join (u ", ") ts ++ [NL]]
                        end) l)
      end)
  ++ [ [NL];
       G_ACHIEVEMENTS ++ u " ACHIEVEMENTS ("
         ++ str_of_nat (length (default [] (achievements extracted)))
         ++ u " detected):" ++ [NL] ]
  ++ (match default [] (achievements extracted) with
      | [] => [u "  (No achievements extracted)" ++ [NL]]
      | l => List.map (fun a => u "  " ++ BULLET ++ u " " ++ a ++ [NL]) l
      end)
  ++ [ [NL]; rule 61; u "END OF REPORT" ++ [NL]; rule 61 ].

Definition save_extracted_data (text : str) (extracted : Resume)
    (fs : FileSystem) : result FileSystem :=
  let result_dir := u "results" in
  fs ← makedirs result_dir fs;
  let timestamp := now_stamp fs in
  let filename := result_dir ++ u "/extracted_" ++ timestamp ++ u ".txt" in
  write_file filename (report fs text extracted) fs.

End Diagnostics.

Module Assembler.
Import PyStr Extractor Diagnostics.

(** The second "substantial" line, when there are more than two. *)
Definition summary_fallback (text : str) : str :=
  let lines :=
    List.filter (fun l => nonempty l && (20 <? length l)%nat)
      (List.map strip (split_on NL text)) in
  if (2 <? length lines)%nat then take 300 (nth 1 lines []) else [].

(** [x if x else None] *)
Definition none_if_empty {A} (l : list A) : option (list A) :=
  match l with [] => None | _ => Some l end.

(** The record built by [extract_resume_info] before it is saved. *)
Definition assemble (text : str) : result Resume :=
  let name := extract_name_robust text in
  let email := extract_email text in
  let phone := extract_phone text in
  let sections := split_resume_by_sections text in
  let experience_summary := strip (dict_get sections (u "summary") []) in
  let experience_summary :=
    if nonempty experience_summary then experience_summary
    else summary_fallback text in
  let profiles := extract_profiles_from_text text in
  let skills := extract_skills_from_text text in
  let projects :=
    extract_projects_from_text (dict_get sections (u "projects") text) in
  achievements ←
    extract_achievements_from_text
      (dict_get sections (u "achievements") text);
  Ok {| name := if nonempty name then name else u "NOT EXTRACTED";
        email := email;
        phone := phone;
        online_profiles := profiles;
        experience_summary := none_if_empty experience_summary;
        projects := projects;
        skills := skills;
        achievements := none_if_empty achievements |}.

Definition extract_resume_info (text : str) (fs : FileSystem)
    : result (Resume * FileSystem) :=
  resume_obj ← assemble text;
  fs' ← save_extracted_data text resume_obj fs;
  Ok (resume_obj, fs').

End Assembler.

(** ** [app/utils/scoring.py] *)

Module Scoring.
Import PyStr.

(** The nearest integer; [tie_up] tells whether a value half-way between
    two integers goes up. *)
Definition round_nearest (tie_up : Q -> bool) (q : Q) : Z :=
  let f := Qfloor q in
  match (q - inject_Z f ?= 1 # 2)%Q with
  | Lt => f
  | Gt => (f + 1)%Z
  | Eq => if tie_up q then (f + 1)%Z else f
  end.

(** [round(x, 2)].  A float is taken as the rational it approximates and
    the result as the two-decimal number it denotes.  Which way [round]
    takes a value half-way between two hundredths depends on the binary
    representation of the float ([round(0.625, 2)] is [0.62],
    [round(10.0 * (1 / 400), 2)] is [0.03]); [tie_up] stands for that
    choice and nothing is assumed about it. *)
Definition round2 (tie_up : Q -> bool) (x : Q) : Q :=
  (inject_Z (round_nearest tie_up (x * 100)) / 100)%Q.

Definition compute_compatibility (tie_up : Q -> bool)
    (resume_skills jd_skills : list str) : Q * list str * list str :=
  let rs : gset str := list_to_set (List.map lower resume_skills) in
  let js : gset str := list_to_set (List.map lower jd_skills) in
  let matched := StrOrder.sorted_set (rs ∩ js) in
  let missing := StrOrder.sorted_set (js ∖ rs) in
  let denom := Nat.max 1 (size js) in
  let score :=
    (10 * (Z.of_nat (length matched) # Pos.of_nat denom))%Q in
  (round2 tie_up score, matched, missing).

(** [calculate_compatibility_score], on two sets of skills. *)
Definition calculate_compatibility_score (tie_up : Q -> bool)
    (resume_skills job_description_skills : gset str) : Q :=
  if bool_decide (job_description_skills = ∅) then 0%Q
  else
    let matched_skills := resume_skills ∩ job_description_skills in
    let skill_match_percentage :=
      (Z.of_nat (size matched_skills)
         # Pos.of_nat (size job_description_skills))%Q in
    let score := (skill_match_percentage * 10)%Q in
    round2 tie_up score.

(** The dict returned by [analyze_skills]. *)
Record SkillAnalysis := {
  sa_matched_skills : list str;
  sa_missing_skills : list str;
  sa_compatibility_score : Q
}.

(** [analyze_skills]; [list(s)] lists the set in an order of its own,
    here the one of [elements]. *)
Definition analyze_skills (tie_up : Q -> bool)
    (resume_skills job_description_skills : gset str) : SkillAnalysis :=
  let matched_skills := resume_skills ∩ job_description_skills in
  let missing_skills := job_description_skills ∖ resume_skills in
  let compatibility_score :=
    calculate_compatibility_score tie_up resume_skills
      job_description_skills in
  {| sa_matched_skills := elements matched_skills;
     sa_missing_skills := elements missing_skills;
     sa_compatibility_score := compatibility_score |}.

End Scoring.

(** ** [app/services/skill_matcher.py] *)

Module SkillMatcher.
Import PyStr.
Local Open Scope string_scope.

Definition DEFAULT_SKILL_VOCAB : list str := List.map u
  [ "python"; "fastapi"; "flask"; "django"; "nlp"; "spacy"; "nltk"; "bert";
    "transformers";
    "pandas"; "numpy"; "sql"; "mongodb"; "postgres"; "aws"; "docker";
    "kubernetes"; "spark" ].

Local Close Scope string_scope.

Definition extract_skills_from_text (text : str) : list str :=
  let t := TextCleaner.normalize_text text in
  let tokens : gset str := list_to_set (split t) in
  StrOrder.sorted
    (List.filter (fun s => bool_decide (s ∈ tokens)) DEFAULT_SKILL_VOCAB).

Definition analyze_resume_vs_jd (tie_up : Q -> bool)
    (resume : Resume) (jd : JobDescription) : AnalysisResult :=
  let jd_skills :=
    extract_skills_from_text (title jd ++ [NL] ++ description jd) in
  let '(score, matched, missing) :=
    Scoring.compute_compatibility tie_up (skills resume) jd_skills in
  let irrelevant :=
    List.filter (fun s => negb (bool_decide (s ∈ jd_skills)))
      (skills resume) in
  {| compatibility_score := score;
     matched_skills := matched;
     missing_skills := missing;
     irrelevant_content := irrelevant;
     suggestions := [(u "add", missing); (u "remove", [])] |}.

End SkillMatcher.

(** ** The hyperlink merge of [upload_resume] in [app/routes/upload.py] *)

Module Upload.
Import PyStr Extractor.

(** One turn of the loop over [hyperlinks]; the record is updated in
    place, so each turn sees the profiles appended by the turns before. *)
Definition merge_one (resume_obj : Resume) (link : str * str) : Resume :=
  let '(link_text, href) := link in
  if nonempty href
     && negb (existsb (fun p => PyStr.eqb (url p) href)
                (online_profiles resume_obj))
  then
    let profile := {| label := label_url href; url := href |} in
    {| name := name resume_obj;
       email := email resume_obj;
       phone := phone resume_obj;
       online_profiles := online_profiles resume_obj ++ [profile];
       experience_summary := experience_summary resume_obj;
       projects := projects resume_obj;
       skills := skills resume_obj;
       achievements := achievements resume_obj |}
  else resume_obj.

(** [if hyperlinks: for link_text, url in hyperlinks: ...] *)
Definition merge_hyperlinks (resume_obj : Resume)
    (hyperlinks : list (str * str)) : Resume :=
  match hyperlinks with
  | [] => resume_obj
  | _ => fold_left merge_one hyperlinks resume_obj
  end.

End Upload.

(** ** [extract_urls_from_text] of [app/services/resume_parser.py] *)

Module ResumeParser.

(** Every match of [(https?://[^\s]+)], paired with the text
    ["Profile"]; the [url_pattern] computed by the source is not used. *)
Definition extract_urls_from_text (text : str) : list (str * str) :=
  List.map (fun url => (u "Profile", url))
    (Re.findall Extractor.URL_RE text).

End ResumeParser.

(** ** The reply parsers of [app/services/groq_analyzer.py] *)

Module GroqAnalyzer.
Import PyStr.

(** The bullet U+2022 of this file. *)
Definition DOT : char := 8226.

(** [s.split(c, 1)[1]] when [c] occurs in [s]: what follows its first
    occurrence. *)
Fixpoint after_first (c : char) (s : str) : str :=
  match s with
  | [] => []
  | x :: s' => if x =? c then s' else after_first c s'
  end.

(** The body of the loop of [extract_list_items] on one line: the item
    appended, if any. *)
Definition list_item (raw : str) : option str :=
  let line := strip raw in
  if negb (Extractor.nonempty line) || isin (u ":") line
     || isin (u "=") line then None
  else
    let line :=
      if startswith (u "-") line then strip (drop 1 line)
      else if startswith [DOT] line then strip (drop 1 line)
      else match line with
           | c :: _ =>
               if isdigit c && isin (u ".") (take 3 line)
               then strip (after_first 46 line)
               else line
           | [] => line
           end in
    if Extractor.nonempty line then Some line else None.

Definition extract_list_items (text : str) : list str :=
  omap list_item (split_on NL text).

(** The loop of [extract_text_after_header]: the stripped non-blank
    lines after the first line holding [:] or [=]. *)
Fixpoint content_after_header (skip_header : bool) (lines : list str)
    : list str :=
  match lines with
  | [] => []
  | line :: rest =>
      if skip_header then
        content_after_header
          (negb (isin (u ":") line || isin (u "=") line)) rest
      else if Extractor.nonempty (strip line)
           then strip line :: content_after_header false rest
           else content_after_header false rest
  end.

Definition extract_text_after_header (text : str) : str :=
  join (u " ") (content_after_header true (split_on NL text)).

End GroqAnalyzer.

(** ** The vocabulary of job-description skills as the specification
       words it: the same as resume skill extraction *)

Module Spec.

Definition job_description_skills (text : str) : list str :=
  Extractor.extract_skills_from_text text.

End Spec.

(** The text whose lines are [ls]. *)
Definition text_of_lines (ls : list string) : str :=
  PyStr.join [NL] (List.map u ls).

(** ** Vocabulary of the statements *)






(** The blocks into which the loop of [split_resume_by_sections] cuts the
    lines: the lines before the first header, under [section], then one
    block per detected header, under the section it names. *)
Fixpoint blocks_from (section : str) (content lines : list str)
    : list (str * list str) :=
  match lines with
  | [] => [(section, content)]
  | line :: lines' =>
      match Extractor.detected_section line with
      | Some section' =>
          (section, content) :: blocks_from section' [line] lines'
      | None => blocks_from section (content ++ [line]) lines'
      end
  end.
Definition blocks (text : str) : list (str * list str) :=
  blocks_from (u "contact") [] (PyStr.split_on NL text).

(** Storing a block under its section, as a flush does. *)
Definition store (m : gmap str str) (b : str * list str) : gmap str str :=
  <[b.1 := PyStr.strip (PyStr.join [NL] b.2)]> m.

(** Some profile of [ps] has the URL [href]; how many have it. *)
Definition has_url (href : str) (ps : list OnlineProfile) : Prop :=
  Exists (fun p => url p = href) ps.
Definition count_url (href : str) (ps : list OnlineProfile) : nat :=
  length (filter (fun p => url p = href) ps).

(** A file system on which the report cannot be written, and one on
    which it can. *)
Definition readonly_fs : FileSystem :=
  {| writable := false;
     now_stamp := u "20240101_120000";
     now_iso := u "2024-01-01T12:00:00";
     files := ∅ |}.
Definition writable_fs : FileSystem :=
  {| writable := true;
     now_stamp := u "20240101_120000";
     now_iso := u "2024-01-01T12:00:00";
     files := ∅ |}.

Local Open Scope string_scope.

(** A resume with an achievements section and no projects section. *)
Definition resume_with_awards : str :=
  text_of_lines
    [ "Built a python scraper for pricing data";
      "Awards:";
      "- Won first place in hackathon 2023" ].

(** A resume without an achievements section. *)
Definition resume_without_awards : str :=
  text_of_lines ["John Smith"; "Software Engineer"].

(** A resume whose achievements section holds a blank line. *)
Definition resume_with_blank_line : str :=
  text_of_lines ["Awards:"; ""; "- Won first place in hackathon 2023"].

(** Two lines that are both headers of the contact section. *)
Definition contact_block : str :=
  text_of_lines ["Email: a@b.com"; "Phone: 123"].

Definition name_example : str :=
  text_of_lines ["John Smith"; "Software Engineer"; "john@x.com"].

Definition linkedin_url : str := u "https://linkedin.com/in/jdoe".

Definition resume_with_linkedin : Resume :=
  {| name := u "J Doe";
     email := [];
     phone := [];
     online_profiles := [{| label := u "LinkedIn"; url := linkedin_url |}];
     experience_summary := None;
     projects := [];
     skills := [];
     achievements := None |}.

Local Close Scope string_scope.


(** ** Vocabulary of the further statements *)

(** What the loop of [split_resume_by_sections] keeps true. *)
Definition seg_inv (st : Extractor.seg_state) : Prop :=
  dom (Extractor.sections st) = dom Extractor.empty_sections
  /\ Extractor.current_section st ∈ dom Extractor.empty_sections
  /\ Extractor.current_section st <> u "other"
  /\ Extractor.sections st !! u "other" = Some []
  /\ map_Forall (fun _ v => PyStr.strip v = v) (Extractor.sections st).

(** The characters of a normalized text: [a-z], [0-9], [+], [#], [.] and
    the space. *)
Definition normal_char (c : char) : bool :=
  PyStr.in_range 97 122 c || PyStr.in_range 48 57 c
  || (c =? 43) || (c =? 35) || (c =? 46) || (c =? 32).

(** No two spaces in a row; [prev_space] tells whether a space precedes. *)
Fixpoint spaced_ok (prev_space : bool) (s : str) : bool :=
  match s with
  | [] => true
  | c :: t =>
      if c =? 32 then negb prev_space && spaced_ok true t
      else spaced_ok false t
  end.

Local Open Scope string_scope.

(** A resume with a link and an achievements section. *)
Definition resume_with_link : str :=
  text_of_lines
    [ "Code at https://github.com/jdoe";
      "Awards:";
      "- Won first place in hackathon 2023" ].

Local Close Scope string_scope.

(** The words of a regular expression, [\b] read as the empty word. *)
Inductive lang : Re.re -> str -> Prop :=
| lang_eps : lang Re.Eps []
| lang_cls p c : p c = true -> lang (Re.Cls p) [c]
| lang_cat r1 r2 a b : lang r1 a -> lang r2 b -> lang (Re.Cat r1 r2) (a ++ b)
| lang_alt_l r1 r2 a : lang r1 a -> lang (Re.Alt r1 r2) a
| lang_alt_r r1 r2 a : lang r2 a -> lang (Re.Alt r1 r2) a
| lang_star_nil r : lang (Re.Star r) []
| lang_star_cons r a b :
    lang r a -> lang (Re.Star r) b -> lang (Re.Star r) (a ++ b)
| lang_bnd : lang Re.Bnd [].

(** The number of decimal digits of a string. *)
Definition count_digits (s : str) : nat :=
  length (List.filter PyStr.isdecimal s).

(** The characters a phone match is made of. *)
Definition phone_char (c : char) : bool :=
  PyStr.isdecimal c || PyStr.isspace c || (c =? 46) || (c =? 45)
  || (c =? 43).

(** The three character classes of [EMAIL_RE]. *)
Definition email_local_char (c : char) : bool :=
  Extractor.ascii_alnum c || PyStr.char_in c (u "_.+-").
Definition email_domain_char (c : char) : bool :=
  Extractor.ascii_alnum c || (c =? 45).
Definition email_tld_char (c : char) : bool :=
  Extractor.ascii_alnum c || PyStr.char_in c (u "-.").

(** [local@domain.tld], each part a non-empty run of its class. *)
Definition email_shaped (local domain tld : str) : Prop :=
  local <> [] /\ Forall (fun c => email_local_char c = true) local
  /\ domain <> [] /\ Forall (fun c => email_domain_char c = true) domain
  /\ tld <> [] /\ Forall (fun c => email_tld_char c = true) tld.

(** A run of phone characters that holds between [lo] and [hi] digits. *)
Definition phone_piece (lo hi : nat) (g : str) : Prop :=
  Forall (fun c => phone_char c = true) g
  /\ (lo <= count_digits g <= hi)%nat.

Definition starts_with (p : char -> bool) (g : str) : Prop :=
  exists c, head g = Some c /\ p c = true.
Definition ends_with (p : char -> bool) (g : str) : Prop :=
  exists c, last g = Some c /\ p c = true.

(** A line that holds a phone number. *)
Definition phone_line : str := u "Phone: +1 555-123-4567".

(** * Properties *)

(** ** The order of [sorted] *)

Section StrOrderFacts.
Import StrOrder.

Lemma ltb_irrefl (a : str) : ltb a a = false.
Proof.
  induction a as [|x a IH]; simpl; [done|].
  rewrite N.ltb_irrefl, N.eqb_refl. simpl. exact IH.
Qed.

Lemma ltb_trans (a b c : str) :
  ltb a b = true -> ltb b c = true -> ltb a c = true.
Proof.
  revert b c. induction a as [|x a IH]; intros [|y b] [|z c]; simpl;
    try done.
  rewrite !orb_true_iff, !andb_true_iff, !N.ltb_lt, !N.eqb_eq.
  intros [Hxy|[-> Hab]] [Hyz|[-> Hbc]].
  - left. lia.
  - by left.
  - by left.
  - right. split; [done|]. by apply (IH b).
Qed.

Lemma ltb_trichotomy (a b : str) :
  ltb a b = true \/ a = b \/ ltb b a = true.
Proof.
  revert b. induction a as [|x a IH]; intros [|y b]; simpl; auto.
  rewrite !orb_true_iff, !andb_true_iff, !N.ltb_lt, !N.eqb_eq.
  destruct (N.lt_trichotomy x y) as [H|[->|H]]; auto.
  destruct (IH b) as [H|[->|H]]; auto.
Qed.

Lemma ltb_asym (a b : str) : ltb a b = true -> ltb b a = false.
Proof.
  intros H. destruct (ltb b a) eqn:E; [|done].
  pose proof (ltb_trans _ _ _ H E) as Haa.
  by rewrite ltb_irrefl in Haa.
Qed.

#[global] Instance le_total : Total le.
Proof.
  intros a b. unfold le.
  destruct (ltb_trichotomy a b) as [H|[->|H]].
  - left. by apply ltb_asym.
  - left. apply ltb_irrefl.
  - right. by apply ltb_asym.
Qed.

#[global] Instance le_trans : Transitive le.
Proof.
  intros a b c. unfold le. intros Hab Hbc.
  destruct (ltb c a) eqn:E; [|done].
  destruct (ltb_trichotomy b c) as [H|[->|H]]; [|congruence..].
  pose proof (ltb_trans _ _ _ H E). congruence.
Qed.

Lemma le_neq_lt (a b : str) : le a b -> a <> b -> lt a b.
Proof.
  unfold le, lt. intros Hle Hne.
  destruct (ltb_trichotomy a b) as [H|[->|H]]; [done|done|congruence].
Qed.

Lemma elem_of_sorted (xs : list str) (x : str) : x ∈ sorted xs <-> x ∈ xs.
Proof. unfold sorted. by rewrite merge_sort_Permutation. Qed.

Lemma length_sorted (xs : list str) : length (sorted xs) = length xs.
Proof. unfold sorted. by rewrite merge_sort_Permutation. Qed.

Lemma StronglySorted_le_lt (l : list str) :
  NoDup l -> StronglySorted le l -> StronglySorted lt l.
Proof.
  induction 2 as [|x l Hs IH Hall]; constructor.
  - apply IH. by apply NoDup_cons_1_2 with x.
  - apply NoDup_cons in H as [Hx _].
    rewrite Forall_forall in *. intros y Hy.
    apply le_neq_lt; [by apply Hall|]. intros ->. by apply Hx.
Qed.

(** [sorted] of a set lists its elements in strictly increasing order. *)
Lemma sorted_set_strict (s : gset str) : StronglySorted lt (sorted_set s).
Proof.
  unfold sorted_set, sorted. apply StronglySorted_le_lt.
  - rewrite merge_sort_Permutation. apply NoDup_elements.
  - apply StronglySorted_merge_sort; apply _.
Qed.

Lemma elem_of_sorted_set (s : gset str) (x : str) :
  x ∈ sorted_set s <-> x ∈ s.
Proof. unfold sorted_set. by rewrite elem_of_sorted, elem_of_elements. Qed.

Lemma length_sorted_set (s : gset str) : length (sorted_set s) = size s.
Proof. unfold sorted_set. by rewrite length_sorted. Qed.

End StrOrderFacts.

(** ** Compatibility scoring *)

Section ScoringFacts.
Import PyStr Scoring.

Lemma round_nearest_near tie_up (q : Q) :
  (inject_Z (round_nearest tie_up q) - (1 # 2) <= q
   /\ q <= inject_Z (round_nearest tie_up q) + (1 # 2))%Q.
Proof.
  unfold round_nearest.
  pose proof (Qfloor_le q) as Hlo. pose proof (Qlt_floor q) as Hhi.
  rewrite inject_Z_plus in Hhi. change (inject_Z 1) with 1%Q in Hhi.
  destruct (Qcompare_spec (q - inject_Z (Qfloor q)) (1 # 2)) as [E|L|G].
  - destruct (tie_up q); rewrite ?inject_Z_plus;
      change (inject_Z 1) with 1%Q; lra.
  - lra.
  - rewrite inject_Z_plus. change (inject_Z 1) with 1%Q. lra.
Qed.


Lemma round2_bounds tie_up (x : Q) :
  (0 <= x <= 10 -> 0 <= round2 tie_up x <= 10)%Q.
Proof.
  intros [H0 H10]. unfold round2.
  destruct (round_nearest_near tie_up (x * 100)) as [Hlo Hhi].
  assert (-1 < round_nearest tie_up (x * 100) < 1001)%Z as [Ha Hb].
  { rewrite !Zlt_Qlt. change (inject_Z (-1)) with (-1 # 1)%Q.
    change (inject_Z 1001) with (1001 # 1)%Q. split; lra. }
  assert (0 <= round_nearest tie_up (x * 100) <= 1000)%Z as [Hc Hd] by lia.
  rewrite Zle_Qle in Hc, Hd.
  change (inject_Z 0) with 0%Q in Hc.
  change (inject_Z 1000) with (1000 # 1)%Q in Hd.
  unfold Qdiv. change (/ 100)%Q with (1 # 100)%Q. split; lra.
Qed.


Lemma ratio_bounds (m d : nat) :
  (m <= d)%nat -> (1 <= d)%nat ->
  (0 <= 10 * (Z.of_nat m # Pos.of_nat d) <= 10)%Q.
Proof.
  intros Hmd Hd.
  assert (0 <= Z.of_nat m # Pos.of_nat d <= 1)%Q as [H0 H1]; [|split; lra].
  unfold Qle; simpl. rewrite Z.mul_1_r.
  assert (Z.pos (Pos.of_nat d) = Z.of_nat d) as ->; [|lia].
  rewrite <- positive_nat_Z, Nat2Pos.id; lia.
Qed.


(** The example of the specification: a score of 6.67. *)
Example compute_compatibility_example (tie_up : Q -> bool) :
  compute_compatibility tie_up
    [u "Python"; u "SQL"; u "AWS"] [u "python"; u "docker"; u "sql"]
  = ((667 # 100)%Q, [u "python"; u "sql"], [u "docker"]).
Proof. by vm_compute. Qed.

End ScoringFacts.

(** ** Skill detection *)

Section RegexFacts.
Import PyStr Re Extractor.









Lemma elem_of_extract_skills (text tech : str) :
  tech ∈ extract_skills_from_text text <->
    tech ∈ TECH_WORDS /\ detects (lower text) tech = true.
Proof.
  unfold extract_skills_from_text.
  rewrite elem_of_sorted_set, elem_of_list_to_set, list_elem_of_In,
    filter_In.
  by rewrite <- list_elem_of_In.
Qed.








End RegexFacts.

(** ** Vocabularies of the two skill extractors *)

Section VocabularyFacts.
Import PyStr.

Lemma DEFAULT_SKILL_VOCAB_subset (s : str) :
  s ∈ SkillMatcher.DEFAULT_SKILL_VOCAB -> s ∈ Extractor.TECH_WORDS.
Proof.
  assert (Forall (fun s => s ∈ Extractor.TECH_WORDS)
            SkillMatcher.DEFAULT_SKILL_VOCAB) as H
    by (apply (bool_decide_unpack _); by vm_compute).
  rewrite Forall_forall in H. apply H.
Qed.

Lemma elem_of_jd_skills (text s : str) :
  s ∈ SkillMatcher.extract_skills_from_text text ->
  s ∈ SkillMatcher.DEFAULT_SKILL_VOCAB.
Proof.
  unfold SkillMatcher.extract_skills_from_text.
  rewrite elem_of_sorted, !list_elem_of_In, filter_In. tauto.
Qed.

(** C5, as the code has it.  The job-description extractor only returns
    terms of its own 18-term vocabulary [DEFAULT_SKILL_VOCAB], each of
    which is a term of the resume vocabulary [TECH_WORDS]; the converse
    fails: "java" is a resume vocabulary term that no job description
    yields. *)
Theorem jd_vocabulary_strict_subset :
  (forall text s, s ∈ SkillMatcher.extract_skills_from_text text ->
     s ∈ SkillMatcher.DEFAULT_SKILL_VOCAB /\ s ∈ Extractor.TECH_WORDS)
  /\ u "java" ∈ Extractor.TECH_WORDS
  /\ (forall text, u "java" ∉ SkillMatcher.extract_skills_from_text text).
Proof.
  split_and!.
  - intros text s H%elem_of_jd_skills. split; [done|].
    by apply DEFAULT_SKILL_VOCAB_subset.
  - apply (bool_decide_unpack _). by vm_compute.
  - intros text H%elem_of_jd_skills. revert H.
    apply (bool_decide_unpack _). by vm_compute.
Qed.

Lemma jd_vocabulary_strict_subset_witness :
  u "python" ∈ SkillMatcher.DEFAULT_SKILL_VOCAB
  /\ u "python" ∈ Extractor.TECH_WORDS.
Proof.
  apply (proj1 jd_vocabulary_strict_subset (u "Python developer")).
  vm_compute. left.
Defined.

(** C5, as stated, fails on the text "java": the resume extractor, which
    the specification names as the vocabulary of a job description,
    detects "java"; the job-description extractor of the code does not. *)
Lemma jd_vocabulary_differs :
  u "java" ∈ Spec.job_description_skills (u "java")
  /\ u "java" ∈ Extractor.extract_skills_from_text (u "java")
  /\ SkillMatcher.extract_skills_from_text (u "java") = [].
Proof. split_and!; vm_compute; by try left. Qed.

End VocabularyFacts.

(** ** Name extraction *)

Section NameFacts.
Import Extractor.

(** C7, as the code has it.  On the lines "John Smith",
    "Software Engineer", "john@x.com" the first two lines are both name
    candidates of at most three words, so the name returned is their
    combination "John Smith Software Engineer". *)
Theorem extract_name_combines_two_lines :
  extract_name_robust name_example = u "John Smith Software Engineer".
Proof. by vm_compute. Qed.

(** C7, as stated, fails: the name returned is not "John Smith". *)
Lemma extract_name_not_first_line :
  extract_name_robust name_example <> u "John Smith".
Proof. by vm_compute. Qed.

End NameFacts.

(** ** Section segmentation *)

Section SegmenterFacts.
Import PyStr Extractor.

Lemma seg_step_keeps_key (st : seg_state) (line k : str) :
  is_Some (sections st !! k) -> is_Some (sections (seg_step st line) !! k).
Proof.
  intros H. unfold seg_step. destruct (detected_section line); [|done].
  simpl. unfold flush. apply lookup_insert_is_Some.
  destruct (decide (current_section st = k)); auto.
Qed.

Lemma fold_seg_step_keeps_key (lines : list str) (st : seg_state) k :
  is_Some (sections st !! k) ->
  is_Some (sections (fold_left seg_step lines st) !! k).
Proof.
  revert st. induction lines as [|l lines IH]; intros st H; [done|].
  simpl. by apply IH, seg_step_keeps_key.
Qed.

(** Every key of the initial dict is a key of the returned dict. *)
Lemma split_resume_by_sections_has_key (text k : str) :
  is_Some (empty_sections !! k) ->
  is_Some (split_resume_by_sections text !! k).
Proof.
  intros H. unfold split_resume_by_sections, flush.
  apply lookup_insert_is_Some.
  destruct (decide (current_section
                      (fold_left seg_step (split_on NL text) seg_init) = k));
    auto.
  right. split; [done|]. by apply fold_seg_step_keeps_key.
Qed.

(** So the default of [sections.get(k, default)] is never used. *)
Lemma dict_get_default_unused (text k d1 d2 : str) :
  is_Some (empty_sections !! k) ->
  dict_get (split_resume_by_sections text) k d1
  = dict_get (split_resume_by_sections text) k d2.
Proof.
  intros H. unfold dict_get.
  by destruct (split_resume_by_sections_has_key text k H) as [c ->].
Qed.

Lemma seg_step_untouched (st : seg_state) (line k : str) :
  detected_section line <> Some k ->
  current_section st <> k ->
  current_section (seg_step st line) <> k
  /\ sections (seg_step st line) !! k = sections st !! k.
Proof.
  intros Hd Hc. unfold seg_step.
  destruct (detected_section line) as [s|]; simpl.
  - split; [congruence|]. unfold flush. by rewrite lookup_insert_ne.
  - done.
Qed.

Lemma fold_seg_step_untouched (k : str) (lines : list str) (st : seg_state) :
  Forall (fun line => detected_section line <> Some k) lines ->
  current_section st <> k ->
  current_section (fold_left seg_step lines st) <> k
  /\ sections (fold_left seg_step lines st) !! k = sections st !! k.
Proof.
  revert st. induction lines as [|l lines IH]; intros st Hl Hc; [done|].
  apply Forall_cons in Hl as [Hl1 Hl2]. simpl.
  destruct (seg_step_untouched st l k Hl1 Hc) as [H1 H2].
  destruct (IH _ Hl2 H1) as [H3 H4]. split; [done|congruence].
Qed.

(** A section whose header is never detected stays empty. *)
Lemma split_resume_by_sections_untouched (text k : str) :
  Forall (fun line => detected_section line <> Some k) (split_on NL text) ->
  k <> u "contact" ->
  split_resume_by_sections text !! k = empty_sections !! k.
Proof.
  intros Hall Hk. unfold split_resume_by_sections.
  destruct (fold_seg_step_untouched k _ seg_init Hall) as [H1 H2];
    [by simpl|].
  unfold flush. rewrite lookup_insert_ne by done. exact H2.
Qed.

(** The returned dict is the initial one after storing the blocks in
    order. *)
Lemma flush_fold_blocks (lines : list str) (st : seg_state) :
  flush (fold_left seg_step lines st)
  = fold_left store
      (blocks_from (current_section st) (current_content st) lines)
      (sections st).
Proof.
  revert st. induction lines as [|l lines IH]; intros st; [done|].
  simpl. rewrite IH. unfold seg_step.
  destruct (detected_section l); reflexivity.
Qed.

Lemma split_resume_by_sections_blocks (text : str) :
  split_resume_by_sections text = fold_left store (blocks text) empty_sections.
Proof. apply flush_fold_blocks. Qed.

Lemma concat_blocks_from (section : str) (content lines : list str) :
  concat (blocks_from section content lines).*2 = content ++ lines.
Proof.
  revert section content. induction lines as [|l lines IH]; intros s c; simpl.
  - by rewrite !app_nil_r.
  - destruct (detected_section l); simpl; rewrite IH; [done|].
    by rewrite <- app_assoc.
Qed.

Lemma fold_store_other (bs : list (str * list str)) (m : gmap str str)
    (k : str) :
  k ∉ bs.*1 -> fold_left store bs m !! k = m !! k.
Proof.
  revert m. induction bs as [|b bs IH]; intros m Hk; [done|].
  simpl. apply not_elem_of_cons in Hk as [Hne Hk].
  rewrite IH by done. unfold store. by rewrite lookup_insert_ne.
Qed.

Lemma fold_store_nodup (bs : list (str * list str)) (m : gmap str str)
    (k : str) (b : list str) :
  NoDup bs.*1 -> (k, b) ∈ bs ->
  fold_left store bs m !! k = Some (strip (join [NL] b)).
Proof.
  revert m. induction bs as [|b0 bs IH]; intros m Hnd Hin.
  - by apply elem_of_nil in Hin.
  - simpl in Hnd. apply NoDup_cons in Hnd as [Hfresh Hnd]. simpl.
    apply elem_of_cons in Hin as [<-|Hin].
    + rewrite fold_store_other by done. unfold store. simpl.
      by rewrite lookup_insert_eq.
    + by apply IH.
Qed.

(** The blocks are the input lines, in order; and when no section name
    heads two blocks, every block is the content of its section, joined
    and stripped: nothing is lost. *)
Lemma sections_partition_without_repeats (text : str) :
  concat (blocks text).*2 = split_on NL text
  /\ (NoDup (blocks text).*1 ->
      forall k b, (k, b) ∈ blocks text ->
        split_resume_by_sections text !! k = Some (strip (join [NL] b))).
Proof.
  split.
  - unfold blocks. by rewrite concat_blocks_from.
  - intros Hnd k b Hin. rewrite split_resume_by_sections_blocks.
    by apply fold_store_nodup.
Qed.

(** C3, on a failing input.  Both lines of "Email: a@b.com" /
    "Phone: 123" are detected as headers of the contact section; the
    second flush overwrites the first, so the returned sections hold
    "Phone: 123" only and the line "Email: a@b.com" is in no section. *)
Theorem repeated_header_drops_lines :
  split_resume_by_sections contact_block
  = <[u "contact" := u "Phone: 123"]> empty_sections
  /\ map_Forall
       (fun _ content => u "Email: a@b.com" ∉ split_on NL content)
       (split_resume_by_sections contact_block).
Proof.
  assert (split_resume_by_sections contact_block
          = <[u "contact" := u "Phone: 123"]> empty_sections) as E
    by (by vm_compute).
  split; [exact E|]. rewrite E.
  apply (bool_decide_unpack _). by vm_compute.
Qed.

End SegmenterFacts.

(** ** Assembly of the record *)

Section AssemblerFacts.
Import PyStr Extractor Diagnostics Assembler.

Lemma extract_achievements_empty :
  extract_achievements_from_text [] = Raise IndexError.
Proof. reflexivity. Qed.

(** Without an achievements header the assembly raises [IndexError]:
    the section is empty and its only line has no first character. *)
Lemma assemble_raises_without_achievements (text : str) :
  Forall (fun line => detected_section line <> Some (u "achievements"))
    (split_on NL text) ->
  assemble text = Raise IndexError.
Proof.
  intros H. unfold assemble.
  assert (dict_get (split_resume_by_sections text) (u "achievements") text
          = []) as ->.
  { unfold dict_get.
    rewrite split_resume_by_sections_untouched; [|done|done].
    reflexivity. }
  reflexivity.
Qed.

(** The projects of the record always come from the projects section,
    whatever the text. *)
Lemma projects_from_section (text : str) (r : Resume) :
  assemble text = Ok r ->
  projects r
  = extract_projects_from_text
      (dict_get (split_resume_by_sections text) (u "projects") []).
Proof.
  unfold assemble.
  rewrite (dict_get_default_unused text (u "projects") text [])
    by (vm_compute; eauto).
  destruct (extract_achievements_from_text _); simpl; [|done].
  by intros [= <-].
Qed.

(** The achievement example of the specification: the marker is
    stripped. *)
Example extract_achievements_example :
  extract_achievements_from_text (u "- Won first place in hackathon 2023")
  = Ok [u "Won first place in hackathon 2023"].
Proof. by vm_compute. Qed.

(** The profile example of the specification. *)
Example extract_profiles_example :
  extract_profiles_from_text (u "see https://github.com/jdoe for code")
  = [{| label := u "GitHub"; url := u "https://github.com/jdoe" |}].
Proof. by vm_compute. Qed.

(** With an achievements section free of blank lines and a file system
    that accepts the report, the record is returned and the report is
    written. *)
Example extract_resume_info_example :
  exists r fs',
    extract_resume_info resume_with_awards writable_fs = Ok (r, fs')
    /\ achievements r = Some [u "Won first place in hackathon 2023"]
    /\ skills r = [u "python"]
    /\ is_Some (files fs' !! u "results/extracted_20240101_120000.txt").
Proof.
  do 2 eexists. split; [by vm_compute|].
  split_and!; [done..|]. by eexists.
Qed.

(** C1, on two failing inputs.  For a resume without an achievements
    section, and for one whose achievements section holds a blank line,
    [extract_resume_info] raises [IndexError] and returns no record,
    whatever the file system. *)
Theorem extract_resume_info_raises_IndexError (fs : FileSystem) :
  extract_resume_info resume_without_awards fs = Raise IndexError
  /\ extract_resume_info resume_with_blank_line fs = Raise IndexError.
Proof. split; by vm_compute. Qed.

(** C8, on a failing input.  The resume has no projects section and its
    first line names a technology: the projects section is present and
    empty, the record has no project, although extraction from the whole
    text finds projects, the first one on the first line; and with an
    empty achievements section the assembly raises [IndexError] instead
    of reading the whole text. *)
Theorem empty_section_no_fallback :
  split_resume_by_sections resume_with_awards !! u "projects" = Some []
  /\ (exists r, assemble resume_with_awards = Ok r /\ projects r = [])
  /\ head (extract_projects_from_text resume_with_awards)
     = Some {| proj_name := u "built a  scape fo picing data";
               technologies := [u "python"; u "r"] |}
  /\ split_resume_by_sections resume_without_awards !! u "achievements"
     = Some []
  /\ assemble resume_without_awards = Raise IndexError.
Proof.
  split_and!.
  - by vm_compute.
  - eexists. split; [by vm_compute|]. reflexivity.
  - by vm_compute.
  - by vm_compute.
  - by vm_compute.
Qed.

(** C4, as the code has it.  [extract_resume_info] calls
    [save_extracted_data] without a handler: when the persistence step
    raises, the same exception reaches the caller and no record is
    returned; when [extract_resume_info] returns, the record is the one
    assembled before the step, which the step cannot change. *)
Theorem persistence_failure_propagates (text : str) (fs : FileSystem) :
  (forall r e, assemble text = Ok r ->
               save_extracted_data text r fs = Raise e ->
               extract_resume_info text fs = Raise e)
  /\ (forall r fs', extract_resume_info text fs = Ok (r, fs') ->
                    assemble text = Ok r
                    /\ save_extracted_data text r fs = Ok fs').
Proof.
  unfold extract_resume_info. split.
  - intros r e -> Hs. simpl. by rewrite Hs.
  - intros r fs'. destruct (assemble text) as [r0|e]; simpl; [|done].
    destruct (save_extracted_data text r0 fs) as [fs0|e] eqn:Hs; simpl.
    + intros [= -> ->]. done.
    + done.
Qed.

Lemma persistence_failure_propagates_witness :
  extract_resume_info resume_with_awards readonly_fs = Raise OSError.
Proof.
  destruct (assemble resume_with_awards) as [r|e] eqn:E.
  - apply (proj1 (persistence_failure_propagates _ _) r OSError E).
    reflexivity.
  - vm_compute in E. discriminate E.
Defined.

(** C4, as stated, fails: on a file system that refuses the report, the
    record is assembled, the persistence step raises [OSError], and so
    does [extract_resume_info]. *)
Lemma persistence_failure_not_caught :
  exists r,
    assemble resume_with_awards = Ok r
    /\ save_extracted_data resume_with_awards r readonly_fs = Raise OSError
    /\ extract_resume_info resume_with_awards readonly_fs = Raise OSError.
Proof.
  eexists. split; [by vm_compute|]. split; by vm_compute.
Qed.

End AssemblerFacts.

(** ** Merging the supplied hyperlinks *)

Section MergeFacts.
Import PyStr Extractor Upload.

Lemma existsb_has_url href ps :
  existsb (fun p => PyStr.eqb (url p) href) ps = true <-> has_url href ps.
Proof.
  unfold has_url. rewrite existsb_exists, Exists_exists.
  split; intros (p & Hp & H); exists p.
  - split; [by apply list_elem_of_In|]. by apply bool_decide_eq_true in H.
  - split; [by apply list_elem_of_In|]. by apply bool_decide_eq_true.
Qed.

Lemma merge_hyperlinks_fold r links :
  merge_hyperlinks r links = fold_left merge_one links r.
Proof. by destruct links. Qed.

Lemma merge_hyperlinks_snoc r links l :
  merge_hyperlinks r (links ++ [l]) = merge_one (merge_hyperlinks r links) l.
Proof. by rewrite !merge_hyperlinks_fold, fold_left_app. Qed.

Lemma merge_one_profiles r t href :
  online_profiles (merge_one r (t, href)) =
    online_profiles r ++
      (if decide (href <> [] /\ ~ has_url href (online_profiles r))
       then [{| label := label_url href; url := href |}] else []).
Proof.
  unfold merge_one.
  destruct (existsb _ _) eqn:E.
  - apply existsb_has_url in E. rewrite andb_false_r.
    rewrite decide_False by tauto. by rewrite app_nil_r.
  - assert (~ has_url href (online_profiles r)) as Hn.
    { rewrite <- existsb_has_url. congruence. }
    destruct href as [|c href]; cbn [nonempty negb andb].
    + rewrite decide_False by tauto. by rewrite app_nil_r.
    + by rewrite decide_True.
Qed.

Lemma count_url_app href ps qs :
  count_url href (ps ++ qs) = (count_url href ps + count_url href qs)%nat.
Proof. unfold count_url. by rewrite filter_app, length_app. Qed.

Lemma merge_one_count_present r l href :
  has_url href (online_profiles r) ->
  has_url href (online_profiles (merge_one r l))
  /\ count_url href (online_profiles (merge_one r l))
     = count_url href (online_profiles r).
Proof.
  intros H. destruct l as [t h]. rewrite merge_one_profiles.
  split; [apply Exists_app; by left|].
  rewrite count_url_app. case_decide as Hd.
  - destruct Hd as [_ Hd]. unfold count_url at 2.
    rewrite filter_cons_False; [rewrite filter_nil; simpl; lia|].
    simpl. by intros ->.
  - unfold count_url at 2. rewrite filter_nil. simpl. lia.
Qed.

Lemma fold_merge_count_present links r href :
  has_url href (online_profiles r) ->
  count_url href (online_profiles (fold_left merge_one links r))
  = count_url href (online_profiles r).
Proof.
  revert r. induction links as [|l links IH]; intros r H; [done|]. simpl.
  destruct (merge_one_count_present r l href H) as [H1 H2].
  by rewrite IH.
Qed.

Lemma has_url_elem_of href ps : has_url href ps <-> href ∈ url <$> ps.
Proof.
  unfold has_url. rewrite Exists_exists, list_elem_of_fmap.
  split; intros (p & H1 & H2); exists p; done.
Qed.

Lemma merge_one_NoDup r l :
  NoDup (url <$> online_profiles r) ->
  NoDup (url <$> online_profiles (merge_one r l)).
Proof.
  intros Hnd. destruct l as [t h]. rewrite merge_one_profiles.
  case_decide as Hd; [|by rewrite app_nil_r].
  destruct Hd as [_ Hd]. rewrite fmap_app. apply NoDup_app.
  split_and!; [done| |apply NoDup_singleton].
  intros x Hx [->|[]%elem_of_nil]%elem_of_cons.
  by apply Hd, has_url_elem_of.
Qed.

Lemma fold_merge_NoDup links r :
  NoDup (url <$> online_profiles r) ->
  NoDup (url <$> online_profiles (fold_left merge_one links r)).
Proof.
  revert r. induction links as [|l links IH]; intros r H; [done|].
  simpl. by apply IH, merge_one_NoDup.
Qed.

(** C9.  While the supplied hyperlinks are merged, a hyperlink
    [(link_text, href)] is appended as a new profile, labelled by
    [label_url], exactly when [href] is not empty and no profile of the
    record as it then stands has the URL [href]; otherwise nothing is
    appended.  In particular, when a profile of the extracted record
    already has the URL [href], merging leaves the number of profiles
    with that URL unchanged; and when the URLs of the record are pairwise
    distinct before the merge, they are pairwise distinct after it. *)
Theorem merge_hyperlinks_spec (resume_obj : Resume)
    (hyperlinks : list (str * str)) (link_text href : str) :
  let before := merge_hyperlinks resume_obj hyperlinks in
  let after :=
    merge_hyperlinks resume_obj (hyperlinks ++ [(link_text, href)]) in
  online_profiles after =
    online_profiles before ++
      (if decide (href <> [] /\ ~ has_url href (online_profiles before))
       then [{| label := label_url href; url := href |}] else [])
  /\ (has_url href (online_profiles resume_obj) ->
      count_url href (online_profiles after)
      = count_url href (online_profiles resume_obj))
  /\ (NoDup (url <$> online_profiles resume_obj) ->
      NoDup (url <$> online_profiles after)).
Proof.
  intros before after. subst before after. split_and!.
  - by rewrite merge_hyperlinks_snoc, merge_one_profiles.
  - intros H. rewrite merge_hyperlinks_fold.
    by apply fold_merge_count_present.
  - intros H. rewrite merge_hyperlinks_fold. by apply fold_merge_NoDup.
Qed.

Lemma merge_hyperlinks_spec_witness :
  count_url linkedin_url
    (online_profiles
       (merge_hyperlinks resume_with_linkedin
          [(u "LinkedIn", linkedin_url)]))
  = 1%nat.
Proof.
  etrans.
  - apply (proj1 (proj2 (merge_hyperlinks_spec resume_with_linkedin []
                             (u "LinkedIn") linkedin_url))).
    left. reflexivity.
  - reflexivity.
Defined.

End MergeFacts.

(** * Further properties *)

(** ** Characters and strings *)

(** Turn a goal on character classes into linear arithmetic. *)
Ltac char_arith :=
  intros;
  unfold PyStr.is_word, PyStr.isalpha, PyStr.iscased, PyStr.isnumeric,
    PyStr.isdigit, PyStr.isdecimal, PyStr.isspace, PyStr.isupper_c,
    PyStr.islower_c, PyStr.in_range in *;
  try apply eq_true_iff_eq;
  repeat first
    [ rewrite orb_true_iff in * | rewrite andb_true_iff in *
    | rewrite negb_true_iff in * | rewrite <- not_true_iff_false in *
    | rewrite N.leb_le in * | rewrite N.eqb_eq in * ];
  lia.

Section StringFacts.
Import PyStr.

Lemma isupper_c_shift (c : N) : isupper_c c = true -> isupper_c (c + 32) = false.
Proof. char_arith. Qed.

Lemma lower_c_idemp (c : N) : lower_c (lower_c c) = lower_c c.
Proof.
  unfold lower_c. destruct (isupper_c c) eqn:E; [|by rewrite E].
  by rewrite isupper_c_shift.
Qed.

Lemma lower_idemp (s : list N) : lower (lower s) = lower s.
Proof.
  unfold lower. rewrite map_map. apply map_ext. intros; apply lower_c_idemp.
Qed.

Lemma isspace_lower_c c : isspace (lower_c c) = isspace c.
Proof.
  unfold lower_c. destruct (isupper_c c) eqn:E; [|done].
  revert E. char_arith.
Qed.

Section StripFacts.
Context (p : N -> bool).

Lemma lstrip_by_decomp (s : list N) :
  exists a, s = a ++ lstrip_by p s /\ Forall (fun c => p c = true) a.
Proof.
  induction s as [|c s IH]; simpl.
  - by exists [].
  - destruct (p c) eqn:E.
    + destruct IH as (a & H1 & H2). exists (c :: a). split.
      * simpl. by f_equal.
      * by constructor.
    + by exists [].
Qed.

Lemma lstrip_by_head (s : list N) c t : lstrip_by p s = c :: t -> p c = false.
Proof.
  induction s as [|x s IH]; simpl; [done|].
  destruct (p x) eqn:E; [done|]. by intros [= <- <-].
Qed.

Lemma lstrip_by_id (s : list N) :
  match s with c :: _ => p c = false | [] => True end -> lstrip_by p s = s.
Proof. destruct s as [|c s]; simpl; [done|]. by intros ->. Qed.

Lemma lstrip_by_idemp (s : list N) : lstrip_by p (lstrip_by p s) = lstrip_by p s.
Proof.
  apply lstrip_by_id. destruct (lstrip_by p s) eqn:E; [done|].
  by eapply lstrip_by_head.
Qed.

Lemma rstrip_by_decomp (s : list N) :
  exists b, s = rstrip_by p s ++ b /\ Forall (fun c => p c = true) b.
Proof.
  unfold rstrip_by. destruct (lstrip_by_decomp (rev s)) as (a & H1 & H2).
  exists (rev a). split.
  - rewrite <- rev_app_distr, <- H1. by rewrite rev_involutive.
  - by apply Forall_rev.
Qed.

Lemma rstrip_by_last (s : list N) t c : rstrip_by p s = t ++ [c] -> p c = false.
Proof.
  unfold rstrip_by. intros H. apply (f_equal (@rev N)) in H.
  rewrite rev_involutive, rev_app_distr in H. simpl in H.
  by eapply lstrip_by_head.
Qed.

Lemma rstrip_by_idemp (s : list N) : rstrip_by p (rstrip_by p s) = rstrip_by p s.
Proof. unfold rstrip_by. by rewrite rev_involutive, lstrip_by_idemp. Qed.

Lemma Forall_lstrip_by (P : N -> Prop) s : Forall P s -> Forall P (lstrip_by p s).
Proof.
  destruct (lstrip_by_decomp s) as (a & H1 & _). intros H.
  rewrite H1 in H. by apply Forall_app in H as [_ ?].
Qed.

Lemma Forall_rstrip_by (P : N -> Prop) s : Forall P s -> Forall P (rstrip_by p s).
Proof.
  destruct (rstrip_by_decomp s) as (a & H1 & _). intros H.
  rewrite H1 in H. by apply Forall_app in H as [? _].
Qed.
End StripFacts.

Lemma strip_decomp (s : list N) :
  exists a b, s = a ++ strip s ++ b
    /\ Forall (fun c => isspace c = true) a
    /\ Forall (fun c => isspace c = true) b.
Proof.
  unfold strip. destruct (lstrip_by_decomp isspace s) as (a & H1 & H2).
  destruct (rstrip_by_decomp isspace (lstrip_by isspace s)) as (b & H3 & H4).
  exists a, b. split; [|done]. by rewrite <- H3.
Qed.

Lemma Forall_strip (P : N -> Prop) s : Forall P s -> Forall P (strip s).
Proof. intros H. by apply Forall_rstrip_by, Forall_lstrip_by. Qed.

(** A stripped string begins and ends with a non-space character. *)
Lemma strip_head (s : list N) c t : strip s = c :: t -> isspace c = false.
Proof.
  unfold strip. intros H.
  destruct (rstrip_by_decomp isspace (lstrip_by isspace s)) as (b & H3 & _).
  rewrite H in H3. simpl in H3. by eapply lstrip_by_head.
Qed.

Lemma strip_last (s : list N) t c : strip s = t ++ [c] -> isspace c = false.
Proof. unfold strip. apply rstrip_by_last. Qed.

Lemma strip_fixed (s : list N) :
  match s with c :: _ => isspace c = false | [] => True end ->
  match rev s with c :: _ => isspace c = false | [] => True end ->
  strip s = s.
Proof.
  intros H1 H2. unfold strip. rewrite lstrip_by_id by done.
  unfold rstrip_by. rewrite lstrip_by_id by done. apply rev_involutive.
Qed.

Lemma strip_idemp (s : list N) : strip (strip s) = strip s.
Proof.
  apply strip_fixed.
  - destruct (strip s) eqn:E; [done|]. by eapply strip_head.
  - destruct (rev (strip s)) eqn:E; [done|].
    apply (f_equal (@rev N)) in E. rewrite rev_involutive in E. simpl in E.
    by eapply strip_last.
Qed.

Lemma strip_nil : strip [] = [].
Proof. reflexivity. Qed.



Lemma split_on_no_sep sep (s : list N) :
  Forall (fun line => sep ∉ line) (split_on sep s).
Proof.
  induction s as [|c s IH]; simpl.
  - repeat constructor. apply not_elem_of_nil.
  - destruct (c =? sep) eqn:E.
    + constructor; [apply not_elem_of_nil|done].
    + apply N.eqb_neq in E.
      destruct (split_on sep s) as [|w ws]; simpl.
      * repeat constructor. by intros ->%list_elem_of_singleton.
      * apply Forall_cons in IH as [H1 H2]. constructor; [|done].
        intros [->|?]%elem_of_cons; done.
Qed.

Lemma split_on_line sep (l : list N) : sep ∉ l -> split_on sep l = [l].
Proof.
  induction l as [|c l IH]; intros H; simpl; [done|].
  apply not_elem_of_cons in H as [H1 H2].
  destruct (N.eqb_spec c sep); [done|]. by rewrite IH.
Qed.

Lemma split_on_app sep (l s : list N) :
  sep ∉ l ->
  split_on sep (l ++ sep :: s) = l :: split_on sep s.
Proof.
  induction l as [|c l IH]; intros H; simpl.
  - by rewrite N.eqb_refl.
  - apply not_elem_of_cons in H as [H1 H2].
    destruct (N.eqb_spec c sep); [done|]. by rewrite IH.
Qed.

(** Splitting the joined lines gives the lines back. *)
Lemma split_on_join sep (ls : list (list N)) :
  ls <> [] -> Forall (fun line => sep ∉ line) ls ->
  split_on sep (join [sep] ls) = ls.
Proof.
  induction ls as [|l ls IH]; intros Hne Hall; [done|].
  apply Forall_cons in Hall as [Hl Hall].
  destruct ls as [|l' ls].
  - simpl. by apply split_on_line.
  - change (join [sep] (l :: l' :: ls)) with (l ++ [sep] ++ join [sep] (l' :: ls)).
    simpl app. rewrite split_on_app by done. f_equal. by apply IH.
Qed.

End StringFacts.

(** ** Achievements, projects, skills and labels *)

Section ExtractorFacts.
Import PyStr Extractor.




Lemma achievement_of_spec (line a : str) :
  achievement_of line = Some a ->
  (10 < length a <= 200)%nat
  /\ match a with c :: _ => isspace c = false | [] => False end.
Proof.
  unfold achievement_of.
  set (x := strip (lstrip _ line)).
  destruct (nonempty x && (10 <? length x)%nat) eqn:E; [|done].
  intros [= <-]. apply andb_true_iff in E as [_ E%Nat.ltb_lt].
  split; [rewrite length_take; lia|].
  destruct x as [|c t] eqn:Ex; [simpl in E; lia|]. simpl.
  by apply (strip_head _ _ _ Ex).
Qed.

Lemma collect_achievements_Forall (P : str -> Prop) lines acc l :
  (forall line a, achievement_of line = Some a -> P a) ->
  Forall P acc ->
  collect_achievements lines acc = Ok l -> Forall P l.
Proof.
  intros HP. revert acc. induction lines as [|raw lines IH]; intros acc Hacc.
  - simpl. by intros [= <-].
  - simpl. destruct (is_achievement_line (strip raw)) as [b|e]; simpl; [|done].
    apply IH. destruct b; [|done].
    apply Forall_app. split; [done|].
    destruct (achievement_of (strip raw)) eqn:E; simpl; [|constructor].
    repeat constructor. by eapply HP.
Qed.

Lemma extract_achievements_length (text : str) (l : list str) :
  extract_achievements_from_text text = Ok l -> (length l <= 10)%nat.
Proof.
  unfold extract_achievements_from_text.
  destruct (collect_achievements (split_on NL text) []) as [l0|e];
    simpl; [|done].
  intros [= <-]. rewrite length_take. lia.
Qed.

(** X2.  When [extract_achievements_from_text] returns, it returns at most
    10 achievements, each of more than 10 and at most 200 characters and
    beginning with a non-space character. *)
Theorem extract_achievements_bounds (text : str) (l : list str) :
  extract_achievements_from_text text = Ok l ->
  (length l <= 10)%nat
  /\ Forall (fun a => (10 < length a <= 200)%nat
                      /\ match a with
                         | c :: _ => isspace c = false
                         | [] => False
                         end) l.
Proof.
  unfold extract_achievements_from_text.
  destruct (collect_achievements (split_on NL text) []) as [l0|e] eqn:E;
    simpl; [|done].
  intros [= <-]. split; [rewrite length_take; lia|].
  apply Forall_take.
  eapply collect_achievements_Forall; [|constructor|exact E].
  apply achievement_of_spec.
Qed.

Lemma extract_achievements_bounds_witness :
  (length [u "Won first place in hackathon 2023"] <= 10)%nat
  /\ Forall (fun a => (10 < length a <= 200)%nat
                      /\ match a with
                         | c :: _ => isspace c = false
                         | [] => False
                         end) [u "Won first place in hackathon 2023"].
Proof.
  apply (extract_achievements_bounds
           (u "- Won first place in hackathon 2023")).
  by vm_compute.
Defined.

Lemma StronglySorted_take {A} (R : relation A) (n : nat) (l : list A) :
  StronglySorted R l -> StronglySorted R (take n l).
Proof.
  intros H. rewrite <- (take_drop n l) in H.
  by apply StronglySorted_app_1_l in H.
Qed.

Lemma project_of_line_spec (line : str) (p : Project) :
  project_of_line line = Some p ->
  (3 < length (proj_name p) <= 150)%nat
  /\ (40 ∉ proj_name p)
  /\ (length (technologies p) <= 10)%nat
  /\ StronglySorted StrOrder.lt (technologies p)
  /\ Forall (fun t => t ∈ TECH_WORDS) (technologies p).
Proof.
  unfold project_of_line.
  set (techs := List.filter _ TECH_WORDS).
  set (name0 := fold_left _ techs line).
  set (name1 := strip (replace _ _ (replace BULLET [] name0))).
  set (name2 := strip (hd [] (split_on 40 name1))).
  destruct (nonempty name2 && (3 <? length name2)%nat) eqn:E; [|done].
  intros [= <-]. simpl. apply andb_true_iff in E as [_ E%Nat.ltb_lt].
  split_and!.
  - rewrite length_take. lia.
  - rewrite length_take. lia.
  - assert (Forall (fun c => c <> 40) name2) as H.
    { apply Forall_strip.
      pose proof (split_on_no_sep 40 name1) as Hs.
      destruct (split_on 40 name1) as [|w ws]; [constructor|].
      apply Forall_cons in Hs as [Hw _]. simpl.
      apply Forall_forall. intros c Hc ->. done. }
    intros Hin.
    assert (Forall (fun c => c <> 40) (take 150 name2)) as H'
      by (by apply Forall_take).
    rewrite Forall_forall in H'. by apply (H' 40).
  - rewrite length_take. lia.
  - apply StronglySorted_take, sorted_set_strict.
  - apply Forall_take, Forall_forall. intros t Ht.
    apply elem_of_sorted_set, elem_of_list_to_set in Ht.
    apply list_elem_of_In, filter_In in Ht as [Ht _].
    by apply list_elem_of_In.
Qed.

Lemma extract_projects_length (text : str) :
  (length (extract_projects_from_text text) <= 10)%nat.
Proof. unfold extract_projects_from_text. rewrite length_take. lia. Qed.

(** X3.  [extract_projects_from_text] returns at most 10 projects; each
    has a name of more than 3 and at most 150 characters without an
    opening parenthesis, and at most 10 technologies, which are terms of
    [TECH_WORDS] in strictly increasing order. *)
Theorem extract_projects_bounds (text : str) :
  (length (extract_projects_from_text text) <= 10)%nat
  /\ Forall (fun p =>
               (3 < length (proj_name p) <= 150)%nat
               /\ (40 ∉ proj_name p)
               /\ (length (technologies p) <= 10)%nat
               /\ StronglySorted StrOrder.lt (technologies p)
               /\ Forall (fun t => t ∈ TECH_WORDS) (technologies p))
       (extract_projects_from_text text).
Proof.
  unfold extract_projects_from_text. split; [rewrite length_take; lia|].
  apply Forall_take, Forall_forall. intros p Hp.
  apply list_elem_of_omap in Hp as (raw & _ & Hp).
  destruct (is_project_start (strip raw)); [|done].
  by apply project_of_line_spec in Hp.
Qed.

(** X4.  [extract_skills_from_text] returns terms of [TECH_WORDS] in
    strictly increasing order, hence without repetition, and it does not
    depend on the case of the text. *)
Theorem extract_skills_sorted_vocabulary (text : str) :
  StronglySorted StrOrder.lt (extract_skills_from_text text)
  /\ Forall (fun t => t ∈ TECH_WORDS) (extract_skills_from_text text)
  /\ extract_skills_from_text (lower text) = extract_skills_from_text text.
Proof.
  split_and!.
  - apply sorted_set_strict.
  - apply Forall_forall. by intros t [Ht _]%elem_of_extract_skills.
  - unfold extract_skills_from_text. by rewrite lower_idemp.
Qed.



End ExtractorFacts.

(** ** The sections dict *)

Section SectionsFacts.
Import PyStr Extractor Diagnostics.

(** The keys of the dict built by [split_resume_by_sections]. *)
Lemma dom_empty_sections :
  dom empty_sections
  = list_to_set (keys SECTION_KEYWORDS ++ [u "other"]).
Proof. by vm_compute. Qed.

Lemma detected_section_key (line s : str) :
  detected_section line = Some s ->
  s ∈ keys SECTION_KEYWORDS /\ s <> u "other".
Proof.
  unfold detected_section. intros [H _]%find_some.
  apply list_elem_of_In in H. split; [done|]. intros ->. revert H.
  apply (bool_decide_unpack _). by vm_compute.
Qed.

Lemma flush_inv (st : seg_state) :
  seg_inv st ->
  dom (flush st) = dom empty_sections
  /\ flush st !! u "other" = Some []
  /\ map_Forall (fun _ v => strip v = v) (flush st).
Proof.
  intros (Hd & Hc & Ho & Hoth & Hs). unfold flush. split_and!.
  - rewrite dom_insert_L, Hd. apply subseteq_union_1_L.
    by apply singleton_subseteq_l.
  - by rewrite lookup_insert_ne.
  - apply map_Forall_insert_2; [apply strip_idemp|done].
Qed.

Lemma seg_step_inv (st : seg_state) (line : str) :
  seg_inv st -> seg_inv (seg_step st line).
Proof.
  intros Hi. unfold seg_step.
  destruct (detected_section line) as [s|] eqn:E; [|done].
  destruct (flush_inv st Hi) as (H1 & H2 & H3).
  destruct (detected_section_key _ _ E) as [Hk Ho].
  unfold seg_inv. simpl. split_and!; try done.
  rewrite dom_empty_sections, elem_of_list_to_set, elem_of_app. by left.
Qed.

Lemma fold_seg_step_inv (lines : list str) (st : seg_state) :
  seg_inv st -> seg_inv (fold_left seg_step lines st).
Proof.
  revert st. induction lines as [|l lines IH]; intros st H; [done|].
  simpl. by apply IH, seg_step_inv.
Qed.

Lemma seg_init_inv : seg_inv seg_init.
Proof.
  unfold seg_inv. simpl. split_and!; try done.
  all: apply (bool_decide_unpack _); by vm_compute.
Qed.

(** The invariant of the loop, at the end of [split_resume_by_sections]. *)
Lemma split_resume_by_sections_inv (text : str) :
  dom (split_resume_by_sections text) = dom empty_sections
  /\ split_resume_by_sections text !! u "other" = Some []
  /\ map_Forall (fun _ v => strip v = v) (split_resume_by_sections text).
Proof. apply flush_inv, fold_seg_step_inv. apply seg_init_inv. Qed.

(** X6.  Whatever the text, the dict returned by
    [split_resume_by_sections] has exactly the seven section names and
    "other" as keys, its "other" entry is empty, and every value is
    stripped of surrounding whitespace. *)
Theorem split_resume_by_sections_shape (text : str) :
  dom (split_resume_by_sections text)
  = list_to_set (keys SECTION_KEYWORDS ++ [u "other"])
  /\ split_resume_by_sections text !! u "other" = Some []
  /\ map_Forall (fun _ v => strip v = v) (split_resume_by_sections text).
Proof.
  rewrite <- dom_empty_sections. apply split_resume_by_sections_inv.
Qed.




Lemma lookup_list_to_map_keys (f : str -> str) (ks : list str) (k : str) :
  k ∈ ks ->
  (list_to_map (List.map (fun k => (k, f k)) ks) : gmap str str) !! k
  = Some (f k).
Proof.
  induction ks as [|k0 ks IH]; intros Hk; [by apply elem_of_nil in Hk|].
  simpl. destruct (decide (k0 = k)) as [->|Hne].
  - by rewrite lookup_insert_eq.
  - rewrite lookup_insert_ne by done. apply IH.
    by apply elem_of_cons in Hk as [->|?].
Qed.

(** X8.  [classify_resume_sections] returns, under each of the seven
    section names, exactly the content that [split_resume_by_sections]
    gives (stripping it again changes nothing), the raw text under
    "full_text", and no "other" entry. *)
Theorem classify_resume_sections_spec (text : str) :
  (forall k, k ∈ keys SECTION_KEYWORDS ->
     classify_resume_sections text !! k
     = split_resume_by_sections text !! k)
  /\ classify_resume_sections text !! u "full_text" = Some text
  /\ classify_resume_sections text !! u "other" = None.
Proof.
  unfold classify_resume_sections. split_and!.
  - intros k Hk.
    assert (k <> u "full_text") as Hne.
    { intros ->. revert Hk. apply (bool_decide_unpack _). by vm_compute. }
    rewrite lookup_insert_ne by done.
    rewrite (lookup_list_to_map_keys
               (fun k => strip (dict_get (split_resume_by_sections text) k []))
               _ k Hk).
    destruct (split_resume_by_sections_inv text) as (Hd & _ & Hs).
    assert (is_Some (split_resume_by_sections text !! k)) as [v Hv].
    { apply elem_of_dom.
      rewrite Hd, dom_empty_sections, elem_of_list_to_set, elem_of_app.
      by left. }
    unfold dict_get. rewrite Hv. simpl. f_equal. by apply (Hs k).
  - by rewrite lookup_insert_eq.
  - rewrite lookup_insert_ne by (by vm_compute).
    apply not_elem_of_list_to_map_1. rewrite <- list_fmap_compose.
    apply (bool_decide_unpack _). by vm_compute.
Qed.

End SectionsFacts.

(** ** Text normalization and the job-description extractor *)

Section NormalizeFacts.
Import PyStr TextCleaner.

Lemma kept_map_char (c : N) : kept (if kept c then c else 32) = true.
Proof. destruct (kept c) eqn:E; [done|]. reflexivity. Qed.

Lemma kept_nonspace_normal (c : N) :
  kept c = true -> isspace c = false -> normal_char c = true.
Proof. unfold kept, normal_char. char_arith. Qed.

Lemma normal_char_kept (c : N) : normal_char c = true -> kept c = true.
Proof. unfold kept, normal_char. char_arith. Qed.

Lemma normal_char_lower (c : N) : normal_char c = true -> lower_c c = c.
Proof.
  intros H. unfold lower_c.
  assert (isupper_c c = false) as ->; [|done].
  revert H. unfold normal_char. char_arith.
Qed.

Lemma normal_char_space (c : N) :
  normal_char c = true -> isspace c = (c =? 32).
Proof. unfold normal_char. char_arith. Qed.

Lemma isspace_not_32 (c : N) : isspace c = false -> (c =? 32) = false.
Proof. char_arith. Qed.

Lemma collapse_spaces_normal (b : bool) (t : str) :
  Forall (fun c => kept c = true) t ->
  Forall (fun c => normal_char c = true) (collapse_spaces b t).
Proof.
  intros H. revert b. induction H as [|c t Hc Ht IH]; intros b; simpl.
  - constructor.
  - destruct (isspace c) eqn:E.
    + apply Forall_app. split; [|apply IH].
      destruct b; repeat constructor.
    + constructor; [by apply kept_nonspace_normal|apply IH].
Qed.

Lemma collapse_spaces_spaced (b : bool) (t : str) :
  spaced_ok b (collapse_spaces b t) = true.
Proof.
  revert b. induction t as [|c t IH]; intros b; simpl; [done|].
  destruct (isspace c) eqn:E.
  - destruct b; simpl; [apply IH|]. apply IH.
  - simpl. rewrite (isspace_not_32 c E). apply IH.
Qed.

Lemma spaced_ok_weaken (b : bool) (s : str) :
  spaced_ok b s = true -> spaced_ok false s = true.
Proof.
  destruct s as [|c t]; simpl; [done|].
  destruct (c =? 32); [|done]. by intros [_ ->]%andb_true_iff.
Qed.

Lemma spaced_ok_tail (b : bool) (c : N) (t : str) :
  spaced_ok b (c :: t) = true -> spaced_ok false t = true.
Proof.
  simpl. destruct (c =? 32); [|done].
  intros [_ H]%andb_true_iff. by eapply spaced_ok_weaken.
Qed.

Lemma spaced_ok_suffix (b : bool) (a s : str) :
  spaced_ok b (a ++ s) = true -> spaced_ok false s = true.
Proof.
  revert b. induction a as [|c a IH]; intros b H.
  - by eapply spaced_ok_weaken.
  - simpl in H. destruct (c =? 32).
    + apply andb_true_iff in H as [_ H]. by eapply IH.
    + by eapply IH.
Qed.

Lemma spaced_ok_prefix (b : bool) (s a : str) :
  spaced_ok b (s ++ a) = true -> spaced_ok b s = true.
Proof.
  revert b. induction s as [|c s IH]; intros b H; [done|].
  simpl in *. destruct (c =? 32).
  - apply andb_true_iff in H as [-> H]. simpl. by eapply IH.
  - by eapply IH.
Qed.

Lemma spaced_ok_strip (s : str) :
  spaced_ok false s = true -> spaced_ok false (strip s) = true.
Proof.
  intros H. destruct (strip_decomp s) as (a & b & Hs & _ & _).
  rewrite Hs in H. apply spaced_ok_suffix in H.
  by apply spaced_ok_prefix in H.
Qed.

Lemma spaced_ok_no_double (b : bool) (pre post : str) :
  spaced_ok b (pre ++ [32; 32] ++ post) = false.
Proof.
  revert b. induction pre as [|c pre IH]; intros b; simpl.
  - by rewrite andb_false_r.
  - destruct (c =? 32); [|apply IH]. rewrite IH. apply andb_false_r.
Qed.

Lemma collapse_spaces_fixed (b : bool) (s : str) :
  Forall (fun c => normal_char c = true) s ->
  spaced_ok b s = true -> collapse_spaces b s = s.
Proof.
  intros H. revert b. induction H as [|c t Hc Ht IH]; intros b Hs; [done|].
  simpl in *. rewrite (normal_char_space c Hc).
  destruct (c =? 32) eqn:E.
  - apply N.eqb_eq in E as ->. apply andb_true_iff in Hs as [Hb Hs].
    destruct b; [done|]. simpl. f_equal. by apply IH.
  - f_equal. by apply IH.
Qed.

(** What [normalize_text] returns is in normal form. *)
Lemma normalize_text_normal (text : str) :
  Forall (fun c => normal_char c = true) (normalize_text text)
  /\ spaced_ok false (normalize_text text) = true.
Proof.
  unfold normalize_text. split.
  - apply Forall_strip, collapse_spaces_normal, Forall_forall.
    intros c Hc. apply list_elem_of_In, in_map_iff in Hc as (x & <- & _).
    apply kept_map_char.
  - apply spaced_ok_strip, collapse_spaces_spaced.
Qed.

(** X9.  [normalize_text] returns a text over [a-z], [0-9], [+], [#],
    [.] and the space, in which no two spaces follow each other and which
    neither begins nor ends with a space. *)
Theorem normalize_text_shape (text : str) :
  Forall (fun c => normal_char c = true) (normalize_text text)
  /\ (forall pre post, normalize_text text <> pre ++ [32; 32] ++ post)
  /\ (forall c t, normalize_text text = c :: t -> c <> 32)
  /\ (forall t c, normalize_text text = t ++ [c] -> c <> 32).
Proof.
  destruct (normalize_text_normal text) as [H1 H2]. split_and!.
  - done.
  - intros pre post E. rewrite E, spaced_ok_no_double in H2. done.
  - intros c t E ->. by apply strip_head in E.
  - intros t c E ->. by apply strip_last in E.
Qed.

Lemma normalize_text_fixed (s : str) :
  Forall (fun c => normal_char c = true) s ->
  spaced_ok false s = true ->
  strip s = s ->
  normalize_text s = s.
Proof.
  intros H1 H2 H3. unfold normalize_text.
  assert (lower s = s) as ->.
  { unfold lower. rewrite <- (map_id s) at 2. apply map_ext_in.
    intros c Hc. apply list_elem_of_In in Hc. rewrite Forall_forall in H1.
    by apply normal_char_lower, H1. }
  assert (List.map (fun c => if kept c then c else 32) s = s) as ->.
  { rewrite <- (map_id s) at 2. apply map_ext_in.
    intros c Hc. apply list_elem_of_In in Hc. rewrite Forall_forall in H1.
    by rewrite normal_char_kept by by apply H1. }
  by rewrite collapse_spaces_fixed.
Qed.

(** X10.  [normalize_text] is idempotent: normalizing a normalized text
    changes nothing. *)
Theorem normalize_text_idempotent (text : str) :
  normalize_text (normalize_text text) = normalize_text text.
Proof.
  destruct (normalize_text_normal text) as [H1 H2].
  apply normalize_text_fixed; [done|done|].
  unfold normalize_text. apply strip_idemp.
Qed.

End NormalizeFacts.

(** ** The job-description extractor and the rule-based analysis *)

Section MatcherFacts.
Import PyStr.

Lemma sorted_strict (xs : list str) :
  NoDup xs -> StronglySorted StrOrder.lt (StrOrder.sorted xs).
Proof.
  intros H. unfold StrOrder.sorted. apply StronglySorted_le_lt.
  - by rewrite merge_sort_Permutation.
  - apply StronglySorted_merge_sort; apply _.
Qed.

Lemma NoDup_List_filter {A} (f : A -> bool) (l : list A) :
  NoDup l -> NoDup (List.filter f l).
Proof.
  induction 1 as [|x l Hx Hl IH]; simpl; [constructor|].
  destruct (f x); [|done]. constructor; [|done].
  rewrite list_elem_of_In, filter_In, <- list_elem_of_In. tauto.
Qed.

Lemma DEFAULT_SKILL_VOCAB_NoDup : NoDup SkillMatcher.DEFAULT_SKILL_VOCAB.
Proof. apply (bool_decide_unpack _). by vm_compute. Qed.

Lemma DEFAULT_SKILL_VOCAB_lower (s : str) :
  s ∈ SkillMatcher.DEFAULT_SKILL_VOCAB -> lower s = s.
Proof.
  revert s. apply Forall_forall. apply (bool_decide_unpack _).
  by vm_compute.
Qed.

(** X11.  The job-description extractor returns its vocabulary terms in
    strictly increasing order; a term is returned exactly when it is one
    of the whitespace-separated tokens of the normalized text; and
    normalizing the text beforehand changes nothing. *)
Theorem jd_extract_skills_spec (text : str) :
  StronglySorted StrOrder.lt (SkillMatcher.extract_skills_from_text text)
  /\ (forall s, s ∈ SkillMatcher.extract_skills_from_text text
        <-> s ∈ SkillMatcher.DEFAULT_SKILL_VOCAB
            /\ s ∈ split (TextCleaner.normalize_text text))
  /\ SkillMatcher.extract_skills_from_text (TextCleaner.normalize_text text)
     = SkillMatcher.extract_skills_from_text text.
Proof.
  unfold SkillMatcher.extract_skills_from_text. split_and!.
  - apply sorted_strict, NoDup_List_filter, DEFAULT_SKILL_VOCAB_NoDup.
  - intros s. rewrite elem_of_sorted, list_elem_of_In, filter_In,
      <- list_elem_of_In, bool_decide_eq_true, elem_of_list_to_set.
    done.
  - assert (TextCleaner.normalize_text (TextCleaner.normalize_text text)
            = TextCleaner.normalize_text text) as ->; [|done].
    destruct (normalize_text_normal text) as [H1 H2].
    apply normalize_text_fixed; [done|done|].
    unfold TextCleaner.normalize_text. apply strip_idemp.
Qed.

Lemma sublist_List_filter {A} (f : A -> bool) (l : list A) :
  sublist (List.filter f l) l.
Proof.
  induction l as [|x l IH]; simpl; [constructor|].
  destruct (f x); by constructor.
Qed.

(** X12.  In the result of [analyze_resume_vs_jd] the matched and the
    missing skills are terms of the 18-term vocabulary, the score lies in
    [[0, 10]], the suggestions are "add" with the missing skills and
    "remove" with nothing, and the irrelevant content is a sublist of the
    resume skills that holds every resume skill not spelled exactly as a
    vocabulary term. *)
Theorem analyze_resume_vs_jd_spec (tie_up : Q -> bool) (resume : Resume)
    (jd : JobDescription) :
  let a := SkillMatcher.analyze_resume_vs_jd tie_up resume jd in
  Forall (fun s => s ∈ SkillMatcher.DEFAULT_SKILL_VOCAB) (matched_skills a)
  /\ Forall (fun s => s ∈ SkillMatcher.DEFAULT_SKILL_VOCAB) (missing_skills a)
  /\ (0 <= compatibility_score a <= 10)%Q
  /\ suggestions a = [(u "add", missing_skills a); (u "remove", [])]
  /\ sublist (irrelevant_content a) (skills resume)
  /\ (forall s, s ∈ skills resume ->
        s ∉ SkillMatcher.DEFAULT_SKILL_VOCAB -> s ∈ irrelevant_content a).
Proof.
  unfold SkillMatcher.analyze_resume_vs_jd, Scoring.compute_compatibility.
  set (jd_skills := SkillMatcher.extract_skills_from_text _).
  set (RS := list_to_set (List.map lower (skills resume)) : gset str).
  set (JS := list_to_set (List.map lower jd_skills) : gset str).
  cbv zeta. simpl.
  assert (HJ : forall s, s ∈ JS -> s ∈ SkillMatcher.DEFAULT_SKILL_VOCAB).
  { intros s Hs. unfold JS in Hs.
    apply elem_of_list_to_set, list_elem_of_In, in_map_iff in Hs
      as (j & <- & Hj).
    apply list_elem_of_In, elem_of_jd_skills in Hj.
    by rewrite DEFAULT_SKILL_VOCAB_lower. }
  split_and!.
  - apply Forall_forall. intros s Hs%elem_of_sorted_set.
    apply HJ. by apply elem_of_intersection in Hs as [_ ?].
  - apply Forall_forall. intros s Hs%elem_of_sorted_set.
    apply HJ. by apply elem_of_difference in Hs as [? _].
  - apply round2_bounds, ratio_bounds; [|lia].
    rewrite length_sorted_set.
    etrans; [apply (subseteq_size (RS ∩ JS) JS)|lia].
    apply intersection_subseteq_r.
  - apply round2_bounds, ratio_bounds; [|lia].
    rewrite length_sorted_set.
    etrans; [apply (subseteq_size (RS ∩ JS) JS)|lia].
    apply intersection_subseteq_r.
  - done.
  - apply sublist_List_filter.
  - intros s Hs Hn. apply list_elem_of_In, filter_In. split.
    + by apply list_elem_of_In.
    + apply negb_true_iff, bool_decide_eq_false.
      intros Hj. apply Hn. by apply elem_of_jd_skills in Hj.
Qed.

End MatcherFacts.

(** ** Scoring *)

Section MoreScoringFacts.
Import PyStr Scoring.








(** X13.  The result of [compute_compatibility] depends only on the sets
    of lowercased skills: lowercasing the inputs beforehand changes
    nothing, and two pairs of lists with the same lowercased elements,
    in any order and with any repetition, give the same result. *)
Theorem compute_compatibility_set_invariant (tie_up : Q -> bool)
    (R J : list str) :
  compute_compatibility tie_up (List.map lower R) (List.map lower J)
  = compute_compatibility tie_up R J
  /\ (forall R' J',
        (forall s, s ∈ List.map lower R <-> s ∈ List.map lower R') ->
        (forall s, s ∈ List.map lower J <-> s ∈ List.map lower J') ->
        compute_compatibility tie_up R' J'
        = compute_compatibility tie_up R J).
Proof.
  split.
  - unfold compute_compatibility.
    assert (forall l, List.map lower (List.map lower l) = List.map lower l)
      as Hl.
    { intros l. rewrite map_map. apply map_ext. apply lower_idemp. }
    by rewrite !Hl.
  - intros R' J' HR HJ. unfold compute_compatibility.
    assert ((list_to_set (List.map lower R') : gset str)
            = list_to_set (List.map lower R)) as ->.
    { apply set_eq. intros s. by rewrite !elem_of_list_to_set. }
    assert ((list_to_set (List.map lower J') : gset str)
            = list_to_set (List.map lower J)) as ->.
    { apply set_eq. intros s. by rewrite !elem_of_list_to_set. }
    done.
Qed.


Lemma calculate_score_bounds (tie_up : Q -> bool) (rs js : gset str) :
  (0 <= calculate_compatibility_score tie_up rs js <= 10)%Q.
Proof.
  unfold calculate_compatibility_score. case_bool_decide as He; [done|].
  apply round2_bounds.
  assert (1 <= size js)%nat as Hd.
  { assert (size js <> 0%nat); [|lia].
    intros Hz. by apply size_empty_iff, leibniz_equiv in Hz. }
  rewrite Qmult_comm. apply ratio_bounds; [|done].
  apply subseteq_size, intersection_subseteq_r.
Qed.

(** X15.  [analyze_skills] splits the job skills into the matched and the
    missing ones: neither list repeats a skill, no skill is in both, and a
    skill is a job skill exactly when it is in one of them; the score lies
    in [[0, 10]] and is 0 for an empty job set. *)
Theorem analyze_skills_partition (tie_up : Q -> bool)
    (resume_skills job_description_skills : gset str) :
  let a := analyze_skills tie_up resume_skills job_description_skills in
  NoDup (sa_matched_skills a)
  /\ NoDup (sa_missing_skills a)
  /\ (forall s, s ∈ job_description_skills
        <-> s ∈ sa_matched_skills a \/ s ∈ sa_missing_skills a)
  /\ (forall s, s ∈ sa_matched_skills a -> s ∈ resume_skills)
  /\ (forall s, s ∈ sa_missing_skills a -> s ∉ resume_skills)
  /\ (0 <= sa_compatibility_score a <= 10)%Q
  /\ (job_description_skills = ∅ -> sa_compatibility_score a = 0%Q).
Proof.
  simpl. split_and!.
  - apply NoDup_elements.
  - apply NoDup_elements.
  - intros s. rewrite !elem_of_elements, elem_of_intersection,
      elem_of_difference.
    destruct (decide (s ∈ resume_skills)); tauto.
  - intros s. rewrite elem_of_elements, elem_of_intersection. tauto.
  - intros s. rewrite elem_of_elements, elem_of_difference. tauto.
  - apply calculate_score_bounds.
  - apply calculate_score_bounds.
  - intros ->. unfold calculate_compatibility_score.
    by rewrite bool_decide_eq_true_2.
Qed.



End MoreScoringFacts.

(** ** More on the hyperlink merge *)

Section MoreMergeFacts.
Import PyStr Extractor Upload Assembler.

Lemma merge_one_skip (r : Resume) (t href : str) :
  href = [] \/ has_url href (online_profiles r) ->
  merge_one r (t, href) = r.
Proof.
  intros H. unfold merge_one.
  destruct href as [|c href]; [done|]. destruct H as [H|H]; [done|].
  apply existsb_has_url in H. by rewrite H.
Qed.

Lemma fold_merge_skip (links : list (str * str)) (r : Resume) :
  Forall (fun l => l.2 = [] \/ has_url l.2 (online_profiles r)) links ->
  fold_left merge_one links r = r.
Proof.
  induction 1 as [|[t h] links Hl _ IH]; [done|].
  cbn [fold_left]. by rewrite merge_one_skip.
Qed.

Lemma merge_one_fields (r : Resume) (l : str * str) :
  name (merge_one r l) = name r
  /\ email (merge_one r l) = email r
  /\ phone (merge_one r l) = phone r
  /\ experience_summary (merge_one r l) = experience_summary r
  /\ projects (merge_one r l) = projects r
  /\ skills (merge_one r l) = skills r
  /\ achievements (merge_one r l) = achievements r.
Proof.
  destruct l as [t h]. unfold merge_one.
  by destruct (nonempty h && negb (existsb _ (online_profiles r))).
Qed.

Lemma has_url_app (href : str) (ps qs : list OnlineProfile) :
  has_url href ps -> has_url href (ps ++ qs).
Proof. intros H. apply Exists_app. by left. Qed.

Lemma merge_one_covers (r : Resume) (t href : str) :
  href <> [] -> has_url href (online_profiles (merge_one r (t, href))).
Proof.
  intros Hne. rewrite merge_one_profiles. case_decide as Hd.
  - apply Exists_app. right. by left.
  - rewrite app_nil_r. destruct (decide (has_url href (online_profiles r)));
      [done|tauto].
Qed.

Lemma merge_one_keeps_url (r : Resume) (l : str * str) (href : str) :
  has_url href (online_profiles r) ->
  has_url href (online_profiles (merge_one r l)).
Proof.
  intros H. destruct l as [t h]. rewrite merge_one_profiles.
  by apply has_url_app.
Qed.

Lemma fold_merge_keeps_url (links : list (str * str)) (r : Resume) href :
  has_url href (online_profiles r) ->
  has_url href (online_profiles (fold_left merge_one links r)).
Proof.
  revert r. induction links as [|l links IH]; intros r H; [done|].
  simpl. by apply IH, merge_one_keeps_url.
Qed.

Lemma fold_merge_covers (links : list (str * str)) (r : Resume) :
  Forall (fun l => l.2 = []
                   \/ has_url l.2
                        (online_profiles (fold_left merge_one links r)))
    links.
Proof.
  revert r. induction links as [|[t h] links IH]; intros r; [constructor|].
  cbn [fold_left]. constructor; [|apply IH]. simpl.
  destruct h as [|c h]; [by left|]. right.
  apply fold_merge_keeps_url. by apply (merge_one_covers r t).
Qed.

Lemma fold_merge_profiles (links : list (str * str)) (r : Resume) :
  exists added,
    online_profiles (fold_left merge_one links r)
    = online_profiles r ++ added
    /\ (length added <= length links)%nat
    /\ Forall (fun p => label p = label_url (url p) /\ url p <> []
                        /\ exists t, (t, url p) ∈ links) added.
Proof.
  revert r. induction links as [|[t h] links IH]; intros r.
  - exists []. simpl. by rewrite app_nil_r.
  - cbn [fold_left].
    destruct (IH (merge_one r (t, h))) as (added & H1 & H2 & H3).
    rewrite merge_one_profiles in H1.
    assert (Forall (fun p => label p = label_url (url p) /\ url p <> []
                             /\ exists t0, (t0, url p) ∈ (t, h) :: links)
              added) as H3'.
    { eapply Forall_impl; [exact H3|]. intros p (? & ? & t0 & ?).
      split_and!; [done..|]. exists t0. by right. }
    case_decide as Hd.
    + exists ({| label := label_url h; url := h |} :: added). split_and!.
      * by rewrite H1, <- app_assoc.
      * simpl. lia.
      * constructor; [|done]. simpl. split_and!; [done|tauto|].
        exists t. by left.
    + exists added. rewrite app_nil_r in H1. split_and!; [done|simpl; lia|done].
Qed.

Lemma fold_merge_fields (links : list (str * str)) (r : Resume) :
  let r' := fold_left merge_one links r in
  name r' = name r
  /\ email r' = email r
  /\ phone r' = phone r
  /\ experience_summary r' = experience_summary r
  /\ projects r' = projects r
  /\ skills r' = skills r
  /\ achievements r' = achievements r.
Proof.
  revert r. induction links as [|l links IH]; intros r; [done|].
  cbn [fold_left]. cbv zeta in *.
  destruct (IH (merge_one r l)) as (H1 & H2 & H3 & H4 & H5 & H6 & H7).
  destruct (merge_one_fields r l) as (G1 & G2 & G3 & G4 & G5 & G6 & G7).
  split_and!; congruence.
Qed.

(** X17.  Merging hyperlinks changes nothing but the profiles; the
    profiles of the record stay, in order, at the front; at most one
    profile is added per hyperlink, each with a non-empty URL taken from
    the hyperlinks and labelled by [label_url]; and merging the same
    hyperlinks a second time changes nothing. *)
Theorem merge_hyperlinks_preserves (resume_obj : Resume)
    (hyperlinks : list (str * str)) :
  let merged := merge_hyperlinks resume_obj hyperlinks in
  (name merged = name resume_obj
   /\ email merged = email resume_obj
   /\ phone merged = phone resume_obj
   /\ experience_summary merged = experience_summary resume_obj
   /\ projects merged = projects resume_obj
   /\ skills merged = skills resume_obj
   /\ achievements merged = achievements resume_obj)
  /\ (exists added,
        online_profiles merged = online_profiles resume_obj ++ added
        /\ (length added <= length hyperlinks)%nat
        /\ Forall (fun p => label p = label_url (url p) /\ url p <> []
                            /\ exists t, (t, url p) ∈ hyperlinks) added)
  /\ merge_hyperlinks merged hyperlinks = merged.
Proof.
  cbv zeta. rewrite !merge_hyperlinks_fold. split; [|split].
  - apply fold_merge_fields.
  - apply fold_merge_profiles.
  - apply fold_merge_skip, fold_merge_covers.
Qed.

Lemma assemble_profiles (text : str) (r : Resume) :
  assemble text = Ok r ->
  online_profiles r = extract_profiles_from_text text.
Proof.
  unfold assemble.
  destruct (extract_achievements_from_text _); simpl; [|done].
  by intros [= <-].
Qed.

(** X18.  For an upload read as plain text the merge adds nothing: the
    URLs that [extract_urls_from_text] finds are the URLs of the profiles
    already extracted from the same text. *)
Theorem merge_plain_text_links_noop (text : str) (r : Resume) :
  assemble text = Ok r ->
  merge_hyperlinks r (ResumeParser.extract_urls_from_text text) = r.
Proof.
  intros H%assemble_profiles. rewrite merge_hyperlinks_fold.
  apply fold_merge_skip, Forall_forall. intros [t h] Hl. right. simpl.
  unfold ResumeParser.extract_urls_from_text in Hl.
  apply list_elem_of_In, in_map_iff in Hl as (x & [= <- <-] & Hx).
  rewrite H. unfold extract_profiles_from_text.
  apply Exists_exists. exists {| label := label_url x; url := x |}.
  split; [|done]. apply list_elem_of_In, in_map_iff. eauto.
Qed.

Lemma merge_plain_text_links_noop_witness :
  exists r,
    assemble resume_with_link = Ok r
    /\ online_profiles r
       = [{| label := u "GitHub"; url := u "https://github.com/jdoe" |}]
    /\ merge_hyperlinks r
         (ResumeParser.extract_urls_from_text resume_with_link) = r.
Proof.
  destruct (assemble resume_with_link) as [r|e] eqn:E.
  - exists r. split_and!; [done| |by apply merge_plain_text_links_noop].
    vm_compute in E. by injection E as <-.
  - vm_compute in E. discriminate E.
Defined.

End MoreMergeFacts.

(** ** The reply parsers *)

Section GroqFacts.
Import PyStr GroqAnalyzer.

Lemma startswith_isin (p s : str) : startswith p s = true -> isin p s = true.
Proof. destruct s; simpl; by intros ->. Qed.

Lemma isin_single (c : N) (s : str) : isin [c] s = true <-> c ∈ s.
Proof.
  induction s as [|x s IH]; simpl.
  - split; [done|]. by intros ?%elem_of_nil.
  - rewrite orb_true_iff, IH, andb_true_r, N.eqb_eq, elem_of_cons.
    split; intros [?|?]; auto.
Qed.

Lemma Forall_after_first (P : N -> Prop) (c : N) (s : str) :
  Forall P s -> Forall P (after_first c s).
Proof.
  induction 1 as [|x s Hx Hs IH]; simpl; [constructor|].
  by destruct (x =? c).
Qed.

Lemma list_item_spec (raw item : str) :
  list_item raw = Some item ->
  item <> [] /\ strip item = item
  /\ (forall P : N -> Prop, Forall P raw -> Forall P item)
  /\ (58 ∉ item) /\ (61 ∉ item).
Proof.
  unfold list_item.
  destruct (negb (Extractor.nonempty (strip raw)) || isin (u ":") (strip raw)
            || isin (u "=") (strip raw)) eqn:E; [done|].
  apply orb_false_iff in E as [E E3]. apply orb_false_iff in E as [_ E2].
  set (line := strip raw) in *.
  set (it := if startswith (u "-") line then _ else _).
  destruct (Extractor.nonempty it) eqn:Hne; [|done]. intros [= <-].
  assert (Hpiece : forall P : N -> Prop, Forall P line -> Forall P it).
  { intros P HP. unfold it.
    destruct (startswith (u "-") line); [by apply Forall_strip, Forall_drop|].
    destruct (startswith [DOT] line); [by apply Forall_strip, Forall_drop|].
    destruct line as [|c t] eqn:El; [done|].
    destruct (isdigit c && isin (u ".") (take 3 (c :: t))); [|done].
    by apply Forall_strip, Forall_after_first. }
  assert (Hno : forall c : N, isin [c] line = false -> c ∉ it).
  { intros c Hc Hin.
    assert (Forall (fun x => x <> c) line) as Hl.
    { apply Forall_forall. intros x Hx ->.
      apply isin_single in Hx. congruence. }
    apply Hpiece in Hl. rewrite Forall_forall in Hl. by apply (Hl c). }
  split_and!.
  - by destruct it.
  - unfold it.
    destruct (startswith (u "-") line); [apply strip_idemp|].
    destruct (startswith [DOT] line); [apply strip_idemp|].
    destruct line as [|c t] eqn:El; [done|].
    destruct (isdigit c && isin (u ".") (take 3 (c :: t)));
      [apply strip_idemp|].
    rewrite <- El. apply strip_idemp.
  - intros P HP. by apply Hpiece, Forall_strip.
  - by apply Hno.
  - by apply Hno.
Qed.

Lemma length_omap_le {A B} (f : A -> option B) (l : list A) :
  (length (omap f l) <= length l)%nat.
Proof.
  induction l as [|x l IH]; csimpl; [done|].
  destruct (f x); csimpl; lia.
Qed.

(** X19.  Every item returned by [extract_list_items] is non-empty, free
    of surrounding whitespace, and holds no colon, no equals sign and no
    line break; there are at most as many items as lines. *)
Theorem extract_list_items_spec (text : str) :
  Forall (fun item => item <> [] /\ strip item = item
                      /\ (58 ∉ item) /\ (61 ∉ item) /\ (NL ∉ item))
    (extract_list_items text)
  /\ (length (extract_list_items text) <= length (split_on NL text))%nat.
Proof.
  unfold extract_list_items. split.
  - apply Forall_forall. intros item Hi.
    apply list_elem_of_omap in Hi as (raw & Hraw & Hi).
    apply list_item_spec in Hi as (H1 & H2 & H3 & H4 & H5).
    split_and!; try done.
    pose proof (split_on_no_sep NL text) as Hs.
    rewrite Forall_forall in Hs. specialize (Hs raw Hraw).
    assert (Forall (fun c => c <> NL) item) as Hf.
    { apply H3, Forall_forall. by intros c Hc ->. }
    intros Hin. rewrite Forall_forall in Hf. by apply (Hf NL).
  - apply length_omap_le.
Qed.

Lemma content_after_header_no_header (lines : list str) :
  Forall (fun line => isin (u ":") line = false
                      /\ isin (u "=") line = false) lines ->
  content_after_header true lines = [].
Proof.
  induction 1 as [|l lines [H1 H2] _ IH]; [done|].
  simpl. by rewrite H1, H2.
Qed.

Lemma content_after_header_no_NL (b : bool) (lines : list str) :
  Forall (fun line => NL ∉ line) lines ->
  Forall (fun line => NL ∉ line) (content_after_header b lines).
Proof.
  intros H. revert b. induction H as [|l lines Hl _ IH]; intros b; simpl.
  - constructor.
  - destruct b; [apply IH|].
    destruct (Extractor.nonempty (strip l)); [|apply IH].
    constructor; [|apply IH].
    assert (Forall (fun c => c <> NL) (strip l)) as Hf.
    { apply Forall_strip, Forall_forall. by intros c Hc ->. }
    intros Hin. rewrite Forall_forall in Hf. by apply (Hf NL).
Qed.

Lemma join_no_char (c : N) (sep : str) (parts : list str) :
  c ∉ sep -> Forall (fun p => c ∉ p) parts -> c ∉ join sep parts.
Proof.
  intros Hs. induction 1 as [|p ps Hp Hps IH]; [apply not_elem_of_nil|].
  destruct ps as [|q ps]; [done|].
  change (join sep (p :: q :: ps)) with (p ++ sep ++ join sep (q :: ps)).
  rewrite !elem_of_app. tauto.
Qed.

(** X20.  [extract_text_after_header] returns the empty string when no
    line holds a colon or an equals sign, and also when the text is a
    single line: what stands on the header line itself is dropped.  Its
    result never holds a line break. *)
Theorem extract_text_after_header_spec (text : str) :
  (Forall (fun line => isin (u ":") line = false
                       /\ isin (u "=") line = false) (split_on NL text) ->
   extract_text_after_header text = [])
  /\ (NL ∉ text -> extract_text_after_header text = [])
  /\ (NL ∉ extract_text_after_header text).
Proof.
  unfold extract_text_after_header. split_and!.
  - intros H. by rewrite content_after_header_no_header.
  - intros H. by rewrite split_on_line.
  - apply join_no_char.
    + by intros ?%list_elem_of_singleton.
    + apply content_after_header_no_NL, split_on_no_sep.
Qed.

Lemma extract_text_after_header_witness :
  extract_text_after_header (u "OVERALL_ASSESSMENT: a good fit") = [].
Proof.
  apply (proj1 (proj2 (extract_text_after_header_spec _))).
  apply (bool_decide_unpack _). by vm_compute.
Defined.

End GroqFacts.

(** ** The assembled record *)

Section RecordFacts.
Import PyStr Extractor Diagnostics Assembler.

Lemma none_if_empty_Some {A} (l l' : list A) :
  none_if_empty l = Some l' -> l' = l /\ l <> [].
Proof. destruct l; [done|]. by intros [= <-]. Qed.

(** X21.  When [extract_resume_info] returns a record, the record is
    fully populated: its name is not empty (the extracted name, or
    "NOT EXTRACTED" when none was found), its email, phone, profiles and
    skills are the results of the extractors on the whole text, a summary
    or an achievements list, when present, is not empty, and there are at
    most 10 projects and at most 10 achievements. *)
Theorem extract_resume_info_populated (text : str) (fs fs' : FileSystem)
    (r : Resume) :
  extract_resume_info text fs = Ok (r, fs') ->
  name r <> []
  /\ (name r = extract_name_robust text
      \/ (extract_name_robust text = [] /\ name r = u "NOT EXTRACTED"))
  /\ email r = extract_email text
  /\ phone r = extract_phone text
  /\ online_profiles r = extract_profiles_from_text text
  /\ skills r = extract_skills_from_text text
  /\ (forall s, experience_summary r = Some s -> s <> [])
  /\ (forall l, achievements r = Some l ->
        l <> [] /\ (length l <= 10)%nat)
  /\ (length (projects r) <= 10)%nat.
Proof.
  unfold extract_resume_info.
  destruct (assemble text) as [r0|e] eqn:E; simpl; [|done].
  destruct (save_extracted_data text r0 fs) as [fs0|e]; simpl; [|done].
  intros [= -> ->]. revert E. unfold assemble.
  destruct (extract_achievements_from_text _) as [ach|e] eqn:Ea; simpl;
    [|done].
  intros [= <-]. simpl. split_and!; try done.
  - by destruct (extract_name_robust text).
  - destruct (extract_name_robust text); [right|left]; done.
  - intros s [-> Hs]%none_if_empty_Some. done.
  - intros l [-> Hl]%none_if_empty_Some. split; [done|].
    by apply extract_achievements_length in Ea.
  - apply extract_projects_length.
Qed.

Lemma extract_resume_info_populated_witness :
  exists r fs',
    extract_resume_info resume_with_awards writable_fs = Ok (r, fs')
    /\ name r <> []
    /\ achievements r = Some [u "Won first place in hackathon 2023"].
Proof.
  destruct (extract_resume_info resume_with_awards writable_fs)
    as [[r fs']|e] eqn:E.
  - exists r, fs'. split; [done|].
    split; [exact (proj1 (extract_resume_info_populated _ _ _ _ E))|].
    vm_compute in E. by injection E as <- _.
  - vm_compute in E. discriminate E.
Defined.

End RecordFacts.

(** ** Matches of the regular expressions *)

Section RegexSoundness.
Import PyStr Re Extractor.

(** Whatever the matcher accepts is a word of the expression, and the
    continuation was run on what follows it. *)
Lemma matchk_sound {A} (r : re) :
  forall prev s (k : option N -> str -> option A) x,
    matchk r prev s k = Some x ->
    exists g rest prev', s = g ++ rest /\ lang r g /\ k prev' rest = Some x.
Proof.
  induction r as [|p|r1 IH1 r2 IH2|r1 IH1 r2 IH2|r1 IH1|];
    intros prev s k x H; simpl in H.
  - exists [], s, prev. split_and!; [done|constructor|done].
  - destruct s as [|c s]; [done|]. destruct (p c) eqn:E; [|done].
    exists [c], s, (Some c). split_and!; [done|by constructor|done].
  - apply IH1 in H as (g1 & rest1 & p1 & -> & L1 & H).
    apply IH2 in H as (g2 & rest & p2 & -> & L2 & H).
    exists (g1 ++ g2), rest, p2.
    split_and!; [by rewrite app_assoc|by constructor|done].
  - destruct (matchk r1 prev s k) as [y|] eqn:E.
    + injection H as ->. apply IH1 in E as (g & rest & p' & -> & L & H).
      exists g, rest, p'. split_and!; [done|by apply lang_alt_l|done].
    + apply IH2 in H as (g & rest & p' & -> & L & H).
      exists g, rest, p'. split_and!; [done|by apply lang_alt_r|done].
  - revert H. generalize (length s) at 1. intros n. revert prev s.
    induction n as [|n IHn]; intros prev s H.
    + exists [], s, prev. split_and!; [done|constructor|done].
    + destruct (matchk r1 prev s _) as [y|] eqn:E.
      * injection H as ->.
        apply IH1 in E as (g1 & rest1 & p1 & -> & L1 & H).
        destruct (length rest1 <? length (g1 ++ rest1))%nat; [|done].
        apply IHn in H as (g2 & rest & p2 & -> & L2 & H).
        exists (g1 ++ g2), rest, p2.
        split_and!; [by rewrite app_assoc|by constructor|done].
      * exists [], s, prev. split_and!; [done|constructor|done].
  - destruct (at_boundary prev s); [|done].
    exists [], s, prev. split_and!; [done|constructor|done].
Qed.

Lemma match_here_sound (r : re) prev (s rest : str) :
  match_here r prev s = Some rest ->
  exists g, s = g ++ rest /\ lang r g.
Proof.
  unfold match_here. intros H.
  apply matchk_sound in H as (g & rest' & p' & -> & L & [= ->]). eauto.
Qed.

Lemma take_app_minus (g rest : str) :
  take (length (g ++ rest) - length rest) (g ++ rest) = g.
Proof.
  rewrite length_app.
  replace (length g + length rest - length rest)%nat with (length g) by lia.
  by rewrite take_app_length.
Qed.

(** A match found by [re.search] lies in the text, and the expression
    matches there. *)
Lemma search_from_inv (r : re) prev (s g rest : str) :
  search_from r prev s = Some (g, rest) ->
  exists pre p, s = pre ++ g ++ rest
    /\ match_here r p (g ++ rest) = Some rest.
Proof.
  revert prev. induction s as [|c s IH]; intros prev H.
  - cbn [search_from] in H.
    destruct (match_here r prev []) as [rest'|] eqn:E; [|done].
    destruct (match_here_sound _ _ _ _ E) as (g' & Hs & _).
    symmetry in Hs. apply app_eq_nil in Hs as [-> ->].
    injection H as <- <-. exists [], prev. split; [done|exact E].
  - cbn [search_from] in H.
    destruct (match_here r prev (c :: s)) as [rest'|] eqn:E.
    + destruct (match_here_sound _ _ _ _ E) as (g' & Hs & _).
      rewrite Hs, take_app_minus in H. injection H as <- <-.
      exists [], prev. by rewrite <- Hs.
    + apply IH in H as (pre & p & -> & H). by exists (c :: pre), p.
Qed.

Lemma findall_from_inv (r : re) (fuel : nat) prev (s g : str) :
  g ∈ findall_from fuel r prev s ->
  exists pre rest p, s = pre ++ g ++ rest
    /\ match_here r p (g ++ rest) = Some rest.
Proof.
  revert prev s. induction fuel as [|fuel IH]; intros prev s H; simpl in H.
  - by apply elem_of_nil in H.
  - destruct (search_from r prev s) as [[g0 rest0]|] eqn:E;
      [|by apply elem_of_nil in H].
    apply search_from_inv in E as (pre0 & p0 & -> & E).
    apply elem_of_cons in H as [->|H].
    + by exists pre0, rest0, p0.
    + apply IH in H as (pre & rest & p & -> & H).
      exists (pre0 ++ g0 ++ pre), rest, p. split; [|done].
      by rewrite <- !app_assoc.
Qed.

Lemma lang_Str (t g : str) : lang (Str t) g -> g = t.
Proof.
  revert g. induction t as [|c t IH]; intros g H; simpl in H.
  - by inversion H.
  - inversion H as [| |? ? a b Ha Hb| | | | |]; subst.
    inversion Ha as [|? ? Hc| | | | | |]; subst.
    apply N.eqb_eq in Hc as ->. simpl. f_equal. by apply IH.
Qed.

Lemma lang_Cls (p : N -> bool) (g : str) :
  lang (Cls p) g -> exists c, g = [c] /\ p c = true.
Proof. inversion 1; subst. eauto. Qed.

Lemma lang_Cat (r1 r2 : re) (g : str) :
  lang (Cat r1 r2) g -> exists a b, g = a ++ b /\ lang r1 a /\ lang r2 b.
Proof. inversion 1; subst. eauto. Qed.

Lemma lang_Opt (r : re) (g : str) : lang (Opt r) g -> g = [] \/ lang r g.
Proof.
  unfold Opt. inversion 1 as [| | |? ? ? Ha|? ? ? Ha| | |]; subst.
  - by right.
  - left. by inversion Ha.
Qed.

Lemma lang_Star_Cls (p : N -> bool) (g : str) :
  lang (Star (Cls p)) g -> Forall (fun c => p c = true) g.
Proof.
  remember (Star (Cls p)) as r eqn:Er. induction 1; try discriminate.
  - constructor.
  - injection Er as ->. apply Forall_app. split; [|by apply IHlang2].
    match goal with H : lang (Cls p) _ |- _ =>
      apply lang_Cls in H as (c & -> & Hc) end.
    by repeat constructor.
Qed.

Lemma lang_Plus_Cls (p : N -> bool) (g : str) :
  lang (Plus (Cls p)) g -> g <> [] /\ Forall (fun c => p c = true) g.
Proof.
  unfold Plus. intros (a & b & -> & Ha & Hb)%lang_Cat.
  apply lang_Cls in Ha as (c & -> & Hc). apply lang_Star_Cls in Hb.
  split; [done|]. by constructor.
Qed.

Lemma lang_Times_Cls (p : N -> bool) (n : nat) (g : str) :
  lang (Times n (Cls p)) g ->
  Forall (fun c => p c = true) g /\ length g = n.
Proof.
  revert g. induction n as [|n IH]; intros g H; simpl in H.
  - inversion H. by split.
  - apply lang_Cat in H as (a & b & -> & Ha & Hb).
    apply lang_Cls in Ha as (c & -> & Hc). apply IH in Hb as [Hb <-].
    split; [by constructor|done].
Qed.

Lemma lang_UpTo_Cls (p : N -> bool) (n : nat) (g : str) :
  lang (UpTo n (Cls p)) g ->
  Forall (fun c => p c = true) g /\ (length g <= n)%nat.
Proof.
  revert g. induction n as [|n IH]; intros g H; simpl in H.
  - inversion H. by split.
  - apply lang_Opt in H as [->|H]; [split; [constructor|simpl; lia]|].
    apply lang_Cat in H as (a & b & -> & Ha & Hb).
    apply lang_Cls in Ha as (c & -> & Hc). apply IH in Hb as [Hb Hl].
    split; [by constructor|simpl; lia].
Qed.

Lemma lang_Rep_Cls (p : N -> bool) (m n : nat) (g : str) :
  lang (Rep m n (Cls p)) g ->
  Forall (fun c => p c = true) g /\ (m <= length g <= m + (n - m))%nat.
Proof.
  unfold Rep. intros (a & b & -> & Ha & Hb)%lang_Cat.
  apply lang_Times_Cls in Ha as [Ha <-].
  apply lang_UpTo_Cls in Hb as [Hb Hl].
  split; [by apply Forall_app|]. rewrite length_app. lia.
Qed.

(** A greedy run of one class, followed by nothing else, takes every
    character of the class. *)
Lemma matchk_Star_Cls_all (p : N -> bool) (n : nat) prev (s rest : str) :
  (fix loop (n : nat) (prev : option N) (s : str) : option str :=
     match n with
     | O => Some s
     | S n' =>
         match matchk (Cls p) prev s
                 (fun prev' s' =>
                    if (length s' <? length s)%nat
                    then loop n' prev' s' else None) with
         | Some x => Some x
         | None => Some s
         end
     end) n prev s = Some rest ->
  (length s <= n)%nat ->
  match rest with c :: _ => p c = false | [] => True end.
Proof.
  revert prev s. induction n as [|n IH]; intros prev s H Hn.
  - injection H as <-. destruct s; [done|simpl in Hn; lia].
  - destruct s as [|c s]; simpl in H; [by injection H as <-|].
    destruct (p c) eqn:E.
    + assert ((length s <? S (length s))%nat = true) as Hlt
        by (apply Nat.ltb_lt; lia).
      rewrite Hlt in H.
      destruct ((fix loop (n : nat) (prev : option N) (s : str) := _) n
                  (Some c) s) as [y|] eqn:El.
      * injection H as ->. apply (IH _ _ El). simpl in Hn. lia.
      * exfalso. clear -El. revert El. generalize (Some c). revert s.
        induction n as [|n IHn]; intros s o El; [done|].
        destruct s as [|d s]; simpl in El; [done|].
        destruct (p d); [|done].
        destruct (length s <? S (length s))%nat; [|done].
        destruct ((fix loop (n : nat) (prev : option N) (s : str) := _) n
                    (Some d) s) eqn:E2; [done|]. by eapply IHn.
    + injection H as <-. done.
Qed.

End RegexSoundness.

(** ** Links, addresses and phone numbers *)

Section MatchFacts.
Import PyStr Re Extractor.

(** A match of a pattern that ends in a greedy run of one class stops where
    the class does. *)
Lemma match_here_Plus_Cls_end (r : re) (p : N -> bool) prev (s rest : str) :
  match_here (r · Plus (Cls p)) prev s = Some rest ->
  match rest with c :: _ => p c = false | [] => True end.
Proof.
  unfold match_here, Plus. cbn [matchk]. intros H.
  apply matchk_sound in H as (g & rest1 & p1 & -> & _ & H).
  destruct rest1 as [|c s']; [done|]. destruct (p c); [|done].
  exact (matchk_Star_Cls_all p (length s') (Some c) s' rest H (le_n _)).
Qed.

Lemma lang_URL_RE (g : str) :
  lang URL_RE g ->
  exists tail,
    (g = u "http://" ++ tail \/ g = u "https://" ++ tail)
    /\ tail <> [] /\ Forall (fun c => isspace c = false) tail.
Proof.
  unfold URL_RE. intros (a & tail & -> & Ha & Ht)%lang_Cat.
  apply lang_Cat in Ha as (a1 & a2 & -> & Ha1 & Ha2).
  apply lang_Cat in Ha1 as (h & o & -> & Hh & Ho).
  apply lang_Str in Hh as ->. apply lang_Str in Ha2 as ->.
  apply lang_Plus_Cls in Ht as [Hne Ht].
  exists tail. split_and!; [|done|].
  - apply lang_Opt in Ho as [->|Ho]; [by left|].
    apply lang_Cls in Ho as (c & -> & <-%N.eqb_eq). by right.
  - eapply Forall_impl; [exact Ht|]. intros c Hc. by apply negb_true_iff in Hc.
Qed.

(** X22. Every profile returned by [extract_profiles_from_text] carries a
    link that occurs in the text, made of [http://] or [https://] and a
    non-empty run of non-blank characters that extends to the next blank
    or to the end of the text; its label is the one [label_url] gives to
    that link.  The text is taken in U+0000..U+00FF, where the table of
    [isspace] is the one of [\s]. *)
Theorem extract_profiles_spec (text : str) (p : OnlineProfile) :
  Forall (fun c => c < 256) text ->
  p ∈ extract_profiles_from_text text ->
  label p = label_url (url p)
  /\ exists pre tail rest,
       text = pre ++ url p ++ rest
       /\ (url p = u "http://" ++ tail \/ url p = u "https://" ++ tail)
       /\ tail <> []
       /\ Forall (fun c => isspace c = false) tail
       /\ match rest with c :: _ => isspace c = true | [] => True end.
Proof.
  intros _ Hp. unfold extract_profiles_from_text in Hp.
  apply list_elem_of_In, in_map_iff in Hp as (g & <- & Hg).
  apply list_elem_of_In in Hg. simpl. split; [done|].
  apply findall_from_inv in Hg as (pre & rest & pv & -> & Hm).
  destruct (match_here_sound _ _ _ _ Hm) as (g' & Hg' & L).
  apply app_inv_tail in Hg' as <-.
  apply lang_URL_RE in L as (tail & Hu & Hne & Ht).
  exists pre, tail, rest. split_and!; [done..|].
  apply match_here_Plus_Cls_end in Hm. destruct rest as [|c rest]; [done|].
  by apply negb_false_iff in Hm.
Qed.

Lemma extract_profiles_spec_witness :
  label {| label := u "GitHub"; url := u "https://github.com/jdoe" |}
  = label_url (url {| label := u "GitHub";
                      url := u "https://github.com/jdoe" |})
  /\ exists pre tail rest,
       resume_with_link = pre ++ u "https://github.com/jdoe" ++ rest
       /\ (u "https://github.com/jdoe" = u "http://" ++ tail
           \/ u "https://github.com/jdoe" = u "https://" ++ tail)
       /\ tail <> []
       /\ Forall (fun c => isspace c = false) tail
       /\ match rest with c :: _ => isspace c = true | [] => True end.
Proof.
  apply (extract_profiles_spec resume_with_link
           {| label := u "GitHub"; url := u "https://github.com/jdoe" |}).
  - apply (bool_decide_unpack _). by vm_compute.
  - vm_compute. by constructor.
Defined.

Lemma lang_EMAIL_RE (g : str) :
  lang EMAIL_RE g ->
  exists local domain tld,
    g = local ++ u "@" ++ domain ++ u "." ++ tld
    /\ email_shaped local domain tld.
Proof.
  unfold EMAIL_RE. intros (a1 & tld & -> & Ha & Ht)%lang_Cat.
  apply lang_Cat in Ha as (a2 & dot & -> & Ha & Hd).
  apply lang_Cat in Ha as (a3 & domain & -> & Ha & Hdom).
  apply lang_Cat in Ha as (local & at' & -> & Hl & Hat).
  apply lang_Cls in Hd as (c & -> & <-%N.eqb_eq).
  apply lang_Cls in Hat as (c & -> & <-%N.eqb_eq).
  apply lang_Plus_Cls in Hl as [? ?], Hdom as [? ?], Ht as [? ?].
  exists local, domain, tld. split; [by rewrite <- !app_assoc|done].
Qed.

(** The search finds a match wherever one starts. *)
Lemma search_from_is_Some (r : re) (pre s : str) prev :
  (forall pv, is_Some (match_here r pv s)) ->
  is_Some (search_from r prev (pre ++ s)).
Proof.
  intros Hs. revert prev. induction pre as [|c pre IH]; intros prev.
  - destruct s as [|c s]; cbn [app search_from];
      by destruct (Hs prev) as [rest ->].
  - cbn [app search_from].
    destruct (match_here r prev (c :: pre ++ s)); [done|apply IH].
Qed.

(** A greedy run of one class succeeds wherever what follows it does. *)
Lemma matchk_Star_Cls_is_Some {A} (p : N -> bool) (run rest : str)
    (k : option N -> str -> option A) prev :
  Forall (fun c => p c = true) run ->
  (forall pv, is_Some (k pv rest)) ->
  is_Some (matchk (Star (Cls p)) prev (run ++ rest) k).
Proof.
  intros Hrun Hk. cbn [matchk].
  assert (length (run ++ rest) <= length (run ++ rest))%nat as Hn by done.
  revert Hn. generalize (length (run ++ rest)) at 2 3. intros n.
  revert prev n. induction Hrun as [|c run Hc Hrun IH]; intros prev n Hn.
  - destruct n as [|n]; [apply Hk|]. cbn [app].
    match goal with |- is_Some (match ?m with _ => _ end) =>
      destruct m; [done|apply Hk] end.
  - destruct n as [|n]; [simpl in Hn; lia|]. cbn [app]. rewrite Hc.
    assert ((length (run ++ rest) <? length (c :: run ++ rest))%nat = true)
      as -> by (apply Nat.ltb_lt; simpl; lia).
    specialize (IH (Some c) n). simpl in Hn.
    destruct IH as [x ->]; [lia|done].
Qed.

Lemma matchk_Plus_Cls_is_Some {A} (p : N -> bool) (run rest : str)
    (k : option N -> str -> option A) prev :
  run <> [] -> Forall (fun c => p c = true) run ->
  (forall pv, is_Some (k pv rest)) ->
  is_Some (matchk (Plus (Cls p)) prev (run ++ rest) k).
Proof.
  intros Hne Hrun Hk. destruct Hrun as [|c run Hc Hrun]; [done|].
  unfold Plus. change (matchk (Cls p · Star (Cls p)) prev ((c :: run) ++ rest) k)
    with (if p c then matchk (Star (Cls p)) (Some c) (run ++ rest) k else None).
  rewrite Hc. by apply matchk_Star_Cls_is_Some.
Qed.

Lemma match_here_EMAIL_RE (local domain tld rest : str) prev :
  email_shaped local domain tld ->
  is_Some (match_here EMAIL_RE prev
             (local ++ u "@" ++ domain ++ u "." ++ tld ++ rest)).
Proof.
  intros (? & ? & ? & ? & ? & ?). unfold match_here, EMAIL_RE.
  cbn [matchk].
  apply (matchk_Plus_Cls_is_Some email_local_char local _ _ prev);
    [done..|].
  intros pv. cbn [app u]. simpl.
  apply (matchk_Plus_Cls_is_Some email_domain_char domain _ _ (Some 64));
    [done..|].
  intros pv'. simpl.
  by apply (matchk_Plus_Cls_is_Some email_tld_char tld _ _ (Some 46)).
Qed.

(** X23. A non-empty result of [extract_email] is a piece of the text of
    the form [local@domain.tld]: three non-empty runs of the classes
    [[a-zA-Z0-9_.+-]], [[a-zA-Z0-9-]] and [[a-zA-Z0-9-.]], and the last run
    extends as far as its class does. *)
Theorem extract_email_shape (text : str) :
  extract_email text <> [] ->
  exists pre local domain tld rest,
    text = pre ++ extract_email text ++ rest
    /\ extract_email text = local ++ u "@" ++ domain ++ u "." ++ tld
    /\ email_shaped local domain tld
    /\ match rest with c :: _ => email_tld_char c = false | [] => True end.
Proof.
  unfold extract_email, search. intros Hne.
  destruct (search_from EMAIL_RE None text) as [[g rest]|] eqn:E; [|done].
  simpl in *. apply search_from_inv in E as (pre & pv & -> & Hm).
  destruct (match_here_sound _ _ _ _ Hm) as (g' & Hg' & L).
  apply app_inv_tail in Hg' as <-.
  apply lang_EMAIL_RE in L as (local & domain & tld & -> & Hs).
  exists pre, local, domain, tld, rest. split_and!; [done..|].
  by apply match_here_Plus_Cls_end in Hm.
Qed.

Lemma extract_email_shape_witness :
  exists pre local domain tld rest,
    name_example = pre ++ extract_email name_example ++ rest
    /\ extract_email name_example = local ++ u "@" ++ domain ++ u "." ++ tld
    /\ email_shaped local domain tld
    /\ match rest with c :: _ => email_tld_char c = false | [] => True end.
Proof. apply (extract_email_shape name_example). by vm_compute. Defined.

(** X24. [extract_email] finds an address in every text that holds one:
    when a piece of the text has the form [local@domain.tld], each part a
    non-empty run of its class, the result is not empty. *)
Theorem extract_email_finds (text pre local domain tld rest : str) :
  text = pre ++ local ++ u "@" ++ domain ++ u "." ++ tld ++ rest ->
  email_shaped local domain tld ->
  extract_email text <> [].
Proof.
  intros -> Hs. unfold extract_email, search.
  destruct (search_from_is_Some EMAIL_RE pre
              (local ++ u "@" ++ domain ++ u "." ++ tld ++ rest) None)
    as [[g rest'] E]; [intros pv; by apply match_here_EMAIL_RE|].
  rewrite E. simpl. apply search_from_inv in E as (pre' & pv & _ & Hm).
  destruct (match_here_sound _ _ _ _ Hm) as (g' & Hg' & L).
  apply app_inv_tail in Hg' as <-.
  apply lang_EMAIL_RE in L as (l & d & t & -> & Hl & _).
  by destruct l.
Qed.

Lemma extract_email_finds_witness : extract_email name_example <> [].
Proof.
  apply (extract_email_finds name_example
           (u "John Smith" ++ [NL] ++ u "Software Engineer" ++ [NL])
           (u "john") (u "x") (u "com") []); [done|].
  unfold email_shaped. split_and!; try done;
    apply (bool_decide_unpack _); by vm_compute.
Defined.

End MatchFacts.

Section PhoneFacts.
Import PyStr Re Extractor.

Lemma count_digits_app (a b : str) :
  count_digits (a ++ b) = (count_digits a + count_digits b)%nat.
Proof. unfold count_digits. by rewrite List.filter_app, length_app. Qed.

Lemma count_digits_all (g : str) :
  Forall (fun c => isdecimal c = true) g -> count_digits g = length g.
Proof.
  unfold count_digits. induction 1 as [|c g Hc _ IH]; [done|].
  simpl. rewrite Hc. simpl. by rewrite IH.
Qed.

Lemma phone_piece_nil : phone_piece 0 0 [].
Proof. split; [constructor|done]. Qed.

Lemma phone_piece_app lo1 hi1 lo2 hi2 (a b : str) :
  phone_piece lo1 hi1 a -> phone_piece lo2 hi2 b ->
  phone_piece (lo1 + lo2) (hi1 + hi2) (a ++ b).
Proof.
  intros [Fa Ca] [Fb Cb]. split; [by apply Forall_app|].
  rewrite count_digits_app. lia.
Qed.

Lemma phone_piece_le lo hi lo' hi' (g : str) :
  (lo' <= lo)%nat -> (hi <= hi')%nat ->
  phone_piece lo hi g -> phone_piece lo' hi' g.
Proof. intros ? ? [F C]. split; [done|lia]. Qed.

Lemma phone_piece_one (c : N) :
  phone_char c = true -> isdecimal c = false -> phone_piece 0 0 [c].
Proof.
  intros Hp Hd. split; [by repeat constructor|].
  unfold count_digits. simpl. by rewrite Hd.
Qed.

Lemma lang_digits (m n : nat) (g : str) :
  lang (Rep m n digit) g ->
  phone_piece m (m + (n - m)) g
  /\ ((0 < m)%nat -> starts_with isdecimal g /\ ends_with isdecimal g).
Proof.
  intros [F L]%lang_Rep_Cls. split.
  - split; [|by rewrite count_digits_all].
    eapply Forall_impl; [exact F|]. intros c Hc. unfold phone_char.
    by rewrite Hc.
  - intros Hm. split.
    + destruct F as [|c g Hc F]; [simpl in L; lia|]. by exists c.
    + destruct (last g) as [c|] eqn:El.
      * exists c. split; [done|]. apply last_Some in El as [g' ->].
        by apply Forall_app in F as [_ [? _]%Forall_cons].
      * apply last_None in El as ->. simpl in L. lia.
Qed.

Lemma lang_phone_sep (g : str) : lang (Opt phone_sep) g -> phone_piece 0 0 g.
Proof.
  intros [->|(c & -> & Hc)%lang_Cls]%lang_Opt; [apply phone_piece_nil|].
  apply phone_piece_one; revert Hc; unfold phone_char; char_arith.
Qed.

Lemma lang_phone_space (g : str) :
  lang (Opt (Cls isspace)) g -> phone_piece 0 0 g.
Proof.
  intros [->|(c & -> & Hc)%lang_Cls]%lang_Opt; [apply phone_piece_nil|].
  apply phone_piece_one; revert Hc; unfold phone_char; char_arith.
Qed.

Lemma lang_phone_plus (g : str) :
  lang (Lit 43) g -> phone_piece 0 0 g /\ starts_with (N.eqb 43) g.
Proof.
  intros (c & -> & Hc)%lang_Cls. apply N.eqb_eq in Hc as <-.
  split; [by apply phone_piece_one|]. by exists 43.
Qed.

Lemma starts_with_app (p : N -> bool) (a b : str) :
  starts_with p a -> starts_with p (a ++ b).
Proof. intros (c & Hc & ?). exists c. by destruct a. Qed.

Lemma ends_with_app (p : N -> bool) (a b : str) :
  ends_with p b -> ends_with p (a ++ b).
Proof.
  intros (c & Hc & ?). exists c. split; [|done].
  rewrite last_app, Hc. done.
Qed.

Lemma starts_with_impl (p q : N -> bool) (g : str) :
  (forall c, p c = true -> q c = true) -> starts_with p g -> starts_with q g.
Proof. intros Hpq (c & ? & ?). exists c. auto. Qed.

Lemma lang_PHONE_RE (g : str) :
  lang PHONE_RE g ->
  phone_piece 7 18 g
  /\ starts_with (fun c => isdecimal c || (c =? 43)) g
  /\ ends_with isdecimal g.
Proof.
  assert (forall g, starts_with isdecimal g ->
            starts_with (fun c => isdecimal c || (c =? 43)) g) as Hdig.
  { intros g'. apply starts_with_impl. by intros c ->. }
  assert (forall g, starts_with (N.eqb 43) g ->
            starts_with (fun c => isdecimal c || (c =? 43)) g) as Hplus.
  { intros g'. apply starts_with_impl. intros c <-%N.eqb_eq. done. }
  unfold PHONE_RE. inversion 1 as [| | |? ? ? L|? ? ? L| | |]; subst.
  - apply lang_Cat in L as (a6 & d3 & -> & L & [P7 E7]%lang_digits).
    apply lang_Cat in L as (a5 & s2 & -> & L & P6%lang_phone_sep).
    apply lang_Cat in L as (a4 & d2 & -> & L & [P5 E5]%lang_digits).
    apply lang_Cat in L as (a3 & s1 & -> & L & P4%lang_phone_sep).
    apply lang_Cat in L as (a2 & d1 & -> & L & [P3 E3]%lang_digits).
    apply lang_Cat in L as (o1 & o2 & -> & L1 & L2).
    assert (phone_piece 0 3 o1
            /\ (o1 = [] \/ starts_with (N.eqb 43) o1)) as [P1 S1].
    { apply lang_Opt in L1 as [->|L1];
        [split; [apply (phone_piece_le 0 0); [lia..|apply phone_piece_nil]
                |by left]|].
      apply lang_Cat in L1 as (b & s & -> & L1 & Ps%lang_phone_sep).
      apply lang_Cat in L1 as (pl & d & -> & [Pp Sp]%lang_phone_plus
                                 & [Pd _]%lang_digits).
      split; [|right; by do 2 apply starts_with_app].
      apply (phone_piece_le (0 + 1 + 0) (0 + (1 + (3 - 1)) + 0)); [lia..|].
      by repeat apply phone_piece_app. }
    assert (phone_piece 0 4 o2
            /\ (o2 = [] \/ starts_with isdecimal o2)) as [P2 S2].
    { apply lang_Opt in L2 as [->|L2];
        [split; [apply (phone_piece_le 0 0); [lia..|apply phone_piece_nil]
                |by left]|].
      apply lang_Cat in L2 as (d & s & -> & [Pd Ed]%lang_digits
                                 & Ps%lang_phone_sep).
      split; [|right; apply starts_with_app, Ed; lia].
      apply (phone_piece_le (2 + 0) (2 + (4 - 2) + 0)); [lia..|].
      by apply phone_piece_app. }
    split_and!.
    + apply (phone_piece_le (0 + 0 + 3 + 0 + 3 + 0 + 3)
               (3 + 4 + (3 + (3 - 3)) + 0 + (3 + (4 - 3)) + 0
                + (3 + (4 - 3)))); [lia..|].
      by repeat apply phone_piece_app.
    + do 4 apply starts_with_app.
      destruct S1 as [->|S1]; [|by apply starts_with_app, Hplus, starts_with_app].
      destruct S2 as [->|S2]; [|by apply starts_with_app, Hdig].
      apply Hdig, E3. lia.
    + apply ends_with_app, E7. lia.
  - apply lang_Cat in L as (a3 & d2 & -> & L & [P4 E4]%lang_digits).
    apply lang_Cat in L as (a2 & sp & -> & L & P3%lang_phone_space).
    apply lang_Cat in L as (pl & d1 & -> & [P1 S1]%lang_phone_plus
                              & [P2 _]%lang_digits).
    split_and!.
    + apply (phone_piece_le (0 + 1 + 0 + 6)
               (0 + (1 + (3 - 1)) + 0 + (6 + (14 - 6)))); [lia..|].
      by repeat apply phone_piece_app.
    + by do 3 apply starts_with_app; apply Hplus.
    + apply ends_with_app, E4. lia.
Qed.

(** X25. A non-empty result of [extract_phone] is a piece of the text made
    of digits, blanks, [.], [-] and [+] only; it holds between 7 and 18
    digits, begins with a digit or [+] and ends with a digit.  The text is
    taken in U+0000..U+00FF, where the tables of [isdecimal] and [isspace]
    are those of [\d] and [\s]. *)
Theorem extract_phone_shape (text : str) :
  Forall (fun c => c < 256) text ->
  extract_phone text <> [] ->
  (exists pre rest, text = pre ++ extract_phone text ++ rest)
  /\ Forall (fun c => phone_char c = true) (extract_phone text)
  /\ (7 <= count_digits (extract_phone text) <= 18)%nat
  /\ starts_with (fun c => isdecimal c || (c =? 43)) (extract_phone text)
  /\ ends_with isdecimal (extract_phone text).
Proof.
  intros _. unfold extract_phone, search. intros Hne.
  destruct (search_from PHONE_RE None text) as [[g rest]|] eqn:E; [|done].
  simpl in *. apply search_from_inv in E as (pre & pv & -> & Hm).
  destruct (match_here_sound _ _ _ _ Hm) as (g' & Hg' & L).
  apply app_inv_tail in Hg' as <-.
  apply lang_PHONE_RE in L as ([F C] & S & En).
  split; [by exists pre, rest|]. by repeat (split; [done|]).
Qed.

Lemma extract_phone_shape_witness :
  (exists pre rest, phone_line = pre ++ extract_phone phone_line ++ rest)
  /\ Forall (fun c => phone_char c = true) (extract_phone phone_line)
  /\ (7 <= count_digits (extract_phone phone_line) <= 18)%nat
  /\ starts_with (fun c => isdecimal c || (c =? 43))
       (extract_phone phone_line)
  /\ ends_with isdecimal (extract_phone phone_line).
Proof.
  apply (extract_phone_shape phone_line).
  - apply (bool_decide_unpack _). by vm_compute.
  - by vm_compute.
Defined.

End PhoneFacts.

(** ** The name *)

Section MoreNameFacts.
Import PyStr Extractor.

(** What [title] writes for a character is the character itself or a
    letter. *)
Lemma title_chunk_elem (b : bool) (c d : N) :
  d ∈ (if b then [lower_c c] else totitle c) ->
  d = c \/ (isspace c = false /\ isspace d = false
            /\ is_linebreak d = false /\ d <> 64).
Proof.
  unfold lower_c, totitle, is_linebreak. intros Hd.
  repeat case_match;
    repeat (apply elem_of_cons in Hd as [->|Hd]);
    try (by apply elem_of_nil in Hd); try (by left);
    right; split_and!; char_arith.
Qed.

Lemma title_chunk_space (b : bool) (c : N) :
  isspace c = true -> (if b then [lower_c c] else totitle c) = [c].
Proof.
  unfold lower_c, totitle. intros Hc.
  repeat case_match; try done; exfalso; char_arith.
Qed.

Lemma title_chunk_nonempty (b : bool) (c : N) :
  (if b then [lower_c c] else totitle c) <> [].
Proof. unfold totitle. by repeat case_match. Qed.

Lemma title_from_elem (b : bool) (s : str) (d : N) :
  d ∈ title_from b s ->
  d ∈ s \/ (isspace d = false /\ is_linebreak d = false /\ d <> 64).
Proof.
  revert b. induction s as [|c s IH]; intros b Hd; simpl in Hd.
  - by apply elem_of_nil in Hd.
  - apply elem_of_app in Hd as [Hd|Hd].
    + apply title_chunk_elem in Hd as [->|(_ & ? & ? & ?)];
        [left; by left|by right].
    + apply IH in Hd as [Hd|Hd]; [left; by right|by right].
Qed.

Lemma words_from_nonempty (cur s : str) : cur <> [] -> words_from cur s <> [].
Proof.
  revert cur. induction s as [|c s IH]; intros cur Hc; simpl.
  - by destruct cur.
  - destruct (isspace c); [by destruct cur|]. by apply IH.
Qed.

Lemma words_from_run (cur run rest : str) :
  Forall (fun c => isspace c = false) run ->
  words_from cur (run ++ rest) = words_from (rev run ++ cur) rest.
Proof.
  intros Hr. revert cur. induction Hr as [|c run Hc _ IH]; intros cur; [done|].
  simpl. rewrite Hc, IH. by rewrite <- app_assoc.
Qed.

Lemma length_words_from_cur (cur cur' s : str) :
  cur <> [] -> cur' <> [] ->
  length (words_from cur s) = length (words_from cur' s).
Proof.
  revert cur cur'. induction s as [|c s IH]; intros cur cur' H H'; simpl.
  - by destruct cur, cur'.
  - destruct (isspace c); [by destruct cur, cur'|]. by apply IH.
Qed.

(** [title] keeps the number of words. *)
Lemma length_words_title (s : str) :
  forall b cur cur', (cur = [] <-> cur' = []) ->
    length (words_from cur' (title_from b s)) = length (words_from cur s).
Proof.
  induction s as [|c s IH]; intros b cur cur' Hc; simpl.
  - destruct cur, cur'; try done; destruct Hc as [H1 H2];
      [by discriminate H1|by discriminate H2].
  - destruct (isspace c) eqn:E.
    + rewrite title_chunk_space by done. simpl. rewrite E.
      destruct cur as [|x cur], cur' as [|y cur'].
      * by apply IH.
      * by destruct Hc as [Hc _]; discriminate Hc.
      * by destruct Hc as [_ Hc]; discriminate Hc.
      * simpl. f_equal. by apply IH.
    + rewrite words_from_run.
      * rewrite (IH _ (c :: cur) (rev (if b then [lower_c c] else totitle c)
                                    ++ cur')); [done|].
        split; [done|]. intros [H _]%app_eq_nil.
        pose proof (title_chunk_nonempty b c) as Hne.
        destruct (if b then [lower_c c] else totitle c); [done|].
        simpl in H. by apply app_eq_nil in H as [_ ?].
      * apply Forall_forall. intros d Hd.
        apply title_chunk_elem in Hd as [->|(_ & ? & _)]; done.
Qed.

Lemma length_split_title (s : str) :
  length (split (to_title s)) = length (split s).
Proof. by apply length_words_title. Qed.

(** The lines of [splitlines] hold no line boundary. *)
Lemma splitlines_from_step (cur : str) (c : N) (s : str) :
  is_linebreak c = true ->
  exists s', (length s' <= length s)%nat
    /\ splitlines_from cur (c :: s) = rev cur :: splitlines_from [] s'.
Proof.
  intros Hc. cbn [splitlines_from]. rewrite Hc.
  repeat case_match; subst;
    first [ by exists s
          | eexists; split; [|reflexivity]; simpl; lia ].
Qed.

Lemma splitlines_from_no_linebreak (n : nat) :
  forall cur s, (length s <= n)%nat ->
    Forall (fun c => is_linebreak c = false) cur ->
    Forall (Forall (fun c => is_linebreak c = false))
      (splitlines_from cur s).
Proof.
  induction n as [|n IH]; intros cur s Hn Hcur.
  - destruct s; [|simpl in Hn; lia]. simpl.
    destruct cur; [constructor|]. repeat constructor. by apply Forall_rev.
  - destruct s as [|c s]; simpl in Hn.
    + simpl. destruct cur; [constructor|]. repeat constructor.
      by apply Forall_rev.
    + destruct (is_linebreak c) eqn:E.
      * destruct (splitlines_from_step cur c s E) as (s' & Hl & ->).
        constructor; [by apply Forall_rev|]. apply IH; [lia|constructor].
      * cbn [splitlines_from]. rewrite E. apply IH; [lia|by constructor].
Qed.

Lemma name_candidate_spec (line : str) :
  name_candidate line = true ->
  (64 ∉ line) /\ (1 <= length (split line) <= 5)%nat.
Proof.
  unfold name_candidate. intros H.
  destruct (isin (u "@") line) eqn:E; [done|]. split.
  - intros Hin. apply (isin_single 64) in Hin.
    change (u "@") with [64] in E. congruence.
  - cbn [orb] in H. repeat case_match; try done.
    match goal with H : _ && _ = true |- _ =>
      apply andb_true_iff in H as [?%Nat.leb_le ?%Nat.leb_le] end. lia.
Qed.

Lemma candidates_spec (text c : str) :
  c ∈ List.filter name_candidate
        (take 15 (List.filter nonempty (List.map strip (splitlines text)))) ->
  name_candidate c = true /\ Forall (fun d => is_linebreak d = false) c.
Proof.
  intros [Hc ?]%list_elem_of_In%filter_In. split; [done|].
  apply list_elem_of_In, elem_of_take in Hc as (i & Hc%list_elem_of_lookup_2 & _).
  apply list_elem_of_In, filter_In in Hc as [Hc _].
  apply in_map_iff in Hc as (l & <- & Hl%list_elem_of_In).
  apply Forall_strip.
  pose proof (splitlines_from_no_linebreak (length text) [] text
                (le_n _) (List.Forall_nil _)) as Hall.
  by apply (proj1 (Forall_forall _ _) Hall).
Qed.

Lemma to_title_nonempty (s : str) : to_title s <> [] -> s <> [].
Proof. by destruct s. Qed.

Lemma to_title_chars (s : str) :
  Forall (fun c => is_linebreak c = false /\ c <> 64) s ->
  Forall (fun c => is_linebreak c = false /\ c <> 64) (to_title s).
Proof.
  intros Hs. apply Forall_forall. intros d Hd.
  apply title_from_elem in Hd as [Hd|(_ & ? & ?)]; [|done].
  by apply (proj1 (Forall_forall _ _) Hs).
Qed.

(** X26. A name returned by [extract_name_robust] has between one and
    five words, stands on one line and holds no [@].  The text is taken in
    U+0000..U+00FF, where the character tables are those of Python. *)
Theorem extract_name_robust_shape (text : str) :
  Forall (fun c => c < 256) text ->
  extract_name_robust text <> [] ->
  (1 <= length (split (extract_name_robust text)) <= 5)%nat
  /\ Forall (fun c => is_linebreak c = false /\ c <> 64)
       (extract_name_robust text).
Proof.
  intros _. unfold extract_name_robust.
  destruct (List.filter nonempty (List.map strip (splitlines text)))
    as [|l0 ls] eqn:El; [done|]. rewrite <- El. clear l0 ls El.
  destruct (List.filter name_candidate _) as [|c1 cs] eqn:Ec; [done|].
  assert (forall c, c ∈ c1 :: cs ->
            ((64 ∉ c) /\ (1 <= length (split c) <= 5)%nat)
            /\ Forall (fun d => is_linebreak d = false /\ d <> 64) c)
    as Hall.
  { intros c Hc. rewrite <- Ec in Hc.
    apply candidates_spec in Hc as [[H64 Hw]%name_candidate_spec Hlb].
    split; [done|]. apply Forall_forall. intros d Hd. split.
    - by apply (proj1 (Forall_forall _ _) Hlb).
    - by intros ->. }
  clear Ec. destruct (Hall c1) as [[_ Hw1] Hc1]; [by left|].
  assert (to_title c1 <> [] ->
          (1 <= length (split (to_title c1)) <= 5)%nat
          /\ Forall (fun c => is_linebreak c = false /\ c <> 64)
               (to_title c1)) as Hfirst.
  { intros _. rewrite length_split_title. split; [done|].
    by apply to_title_chars. }
  destruct cs as [|c2 cs]; [done|].
  destruct (_ && _); [|done].
  destruct (length (split (strip (c1 ++ u " " ++ c2))) <=? 5)%nat eqn:E5;
    [|done].
  intros Hne%to_title_nonempty. rewrite length_split_title.
  apply Nat.leb_le in E5. destruct (Hall c2) as [_ Hc2]; [right; by left|].
  split.
  - split; [|done]. destruct (strip _) as [|c t] eqn:Es; [done|].
    apply strip_head in Es. unfold split. simpl. rewrite Es.
    assert (words_from [c] t <> []) as Hw by by apply words_from_nonempty.
    destruct (words_from [c] t); [done|simpl; lia].
  - apply to_title_chars, Forall_strip, Forall_app. split; [done|].
    apply Forall_app. split; [|done]. by repeat constructor.
Qed.

Lemma extract_name_robust_shape_witness :
  (1 <= length (split (extract_name_robust name_example)) <= 5)%nat
  /\ Forall (fun c => is_linebreak c = false /\ c <> 64)
       (extract_name_robust name_example).
Proof.
  apply (extract_name_robust_shape name_example).
  - apply (bool_decide_unpack _). by vm_compute.
  - by vm_compute.
Defined.

End MoreNameFacts.

(** ** The report file *)

Section ReportFacts.
Import PyStr Extractor Diagnostics.

Lemma app_between {A} (a1 a2 a3 a4 a5 t r c : list A) :
  (a1 ++ a2 ++ a3 ++ a4 ++ a5 ++ t ++ r) ++ c
  = (a1 ++ a2 ++ a3 ++ a4 ++ a5) ++ t ++ (r ++ c).
Proof. by rewrite <- !app_assoc. Qed.

(** X27. On a writable file system [save_extracted_data] returns, and it
    acts on one file only, [results/extracted_<timestamp>.txt]: that file
    now holds a report in which the complete raw text stands, and every
    other file is as it was. *)
Theorem save_extracted_data_writes (text : str) (extracted : Resume)
    (fs : FileSystem) :
  writable fs = true ->
  exists fs' before after,
    save_extracted_data text extracted fs = Ok fs'
    /\ files fs' !! (u "results/extracted_" ++ now_stamp fs ++ u ".txt")
       = Some (before ++ text ++ after)
    /\ (forall f, f <> u "results/extracted_" ++ now_stamp fs ++ u ".txt" ->
          files fs' !! f = files fs !! f)
    /\ writable fs' = true
    /\ now_stamp fs' = now_stamp fs.
Proof.
  intros Hw. unfold save_extracted_data, makedirs, write_file.
  rewrite Hw. cbn [mbind result_bind]. rewrite Hw.
  do 3 eexists. split; [reflexivity|]. cbn [files writable now_stamp].
  split_and!; [|by intros f Hf; apply lookup_insert_ne|done..].
  change (u "results" ++ u "/extracted_" ++ now_stamp fs ++ u ".txt")
    with (u "results/extracted_" ++ now_stamp fs ++ u ".txt").
  rewrite lookup_insert_eq. f_equal. unfold report.
  rewrite concat_app. cbn [concat].
  apply app_between.
Qed.

Lemma save_extracted_data_writes_witness :
  exists fs' before after,
    save_extracted_data resume_with_awards resume_with_linkedin writable_fs
    = Ok fs'
    /\ files fs'
         !! (u "results/extracted_" ++ now_stamp writable_fs ++ u ".txt")
       = Some (before ++ resume_with_awards ++ after)
    /\ (forall f,
          f <> u "results/extracted_" ++ now_stamp writable_fs ++ u ".txt" ->
          files fs' !! f = files writable_fs !! f)
    /\ writable fs' = true
    /\ now_stamp fs' = now_stamp writable_fs.
Proof.
  apply (save_extracted_data_writes resume_with_awards resume_with_linkedin
           writable_fs).
  reflexivity.
Defined.

End ReportFacts.
